(** * ShopStream API gateway: a shallow embedding of
    [services/api-gateway/src/index.js]

    The gateway is a set of Express route handlers over a Redis cache and
    four downstream HTTP services.  Each handler is embedded as a function
    in a small monad that threads the cache and the list of outbound
    requests, with JavaScript exceptions and [return res.status(..).json(..)]
    as two distinct ways of leaving a block.

    Conventions of the embedding:
    - Product ids, quantities, HTTP status codes and clock readings are
      integers [Z]; on integer-valued doubles below 2^53 the operations [+]
      and [Math.max] are exact.  Prices and totals are IEEE 754 binary64
      numbers ([spec_float] at precision 53) with the [*] and [+] of that
      format, rounding to nearest, which is what JavaScript computes with.
    - A cart is stored in Redis as [JSON.stringify(cart)] and read back with
      [JSON.parse]; the stored blob is kept in parsed form ([VCart]).  The
      text of a serialised array is never the empty string, so such a blob
      is always truthy.  Any other stored text is kept with the outcome of
      [JSON.parse] on it ([VStr]).
    - Redis is either reachable or not for the duration of one handler run;
      every command throws when it is not. *)

From Stdlib Require Import ZArith Lia Ascii String SpecFloat.
From stdpp Require Import gmap strings list fin_maps.

Local Open Scope Z_scope.

(** ** JSON bodies of downstream responses *)

#[warnings="-register-all"]
Inductive json :=
| JNull
| JBool (b : bool)
| JNum (n : Z)
| JStr (s : string)
| JArr (elems : list json)
| JObj (fields : list (string * json)).

Fixpoint assoc (k : string) (fs : list (string * json)) : option json :=
  match fs with
  | [] => None
  | (k', v) :: fs' => if bool_decide (k' = k) then Some v else assoc k fs'
  end.

(** [j.k]: [None] is the TypeError of reading a property of [null],
    [Some None] is [undefined]. *)
Definition get_prop (j : json) (k : string) : option (option json) :=
  match j with
  | JNull => None
  | JObj fs => Some (assoc k fs)
  | _ => Some None
  end.

Definition truthy (j : json) : bool :=
  match j with
  | JNull => false
  | JBool b => b
  | JNum n => negb (n =? 0)
  | JStr s => negb (bool_decide (s = ""))
  | JArr _ | JObj _ => true
  end.

(** ** Data model *)

(** JavaScript numbers that are not integers: binary64, with the
    arithmetic of IEEE 754. *)
Module Double.

Definition prec : Z := 53.
Definition emax : Z := 1024.

(** The double nearest to an integer (the integer itself below 2^53):
    the number a quantity is when it enters a product with a price. *)
Definition of_Z (n : Z) : spec_float := binary_normalize prec emax n 0 false.

(** [x + y] and [x * y] *)
Definition add (x y : spec_float) : spec_float := SFadd prec emax x y.
Definition mul (x y : spec_float) : spec_float := SFmul prec emax x y.

(** The double a decimal literal denotes: [decimal 19999 2] is the number
    written 199.99. *)
Definition decimal (m : Z) (places : nat) : spec_float :=
  SFdiv prec emax (of_Z m) (of_Z (10 ^ Z.of_nat places)).

End Double.

(** An integer written where a price or a total is expected stands for
    its double. *)
Coercion Double.of_Z : Z >-> spec_float.

(** A cart line item [{productId, name, price, image, quantity}].
    [price] is the number the field stands for in [item.price *
    item.quantity], the only operation the gateway applies to it (a price
    sent as decimal text is converted by [*] first). *)
Record item := Item {
  productId : Z;
  name : string;
  price : spec_float;
  image : string;
  quantity : Z;
}.

(** The fields of a product-service reply that the gateway reads. *)
Record product := Product {
  product_name : string;
  product_price : spec_float;
  product_image : string;
}.

(** The decoded token payload attached to the request as [req.user]. *)
Record claims := Claims {
  id : string;
  role : string;
  exp : Z;
}.

(** Body of the POST issued to the order service; [order_total] is the
    number the route computes, before [JSON.stringify]. *)
Record order_request := OrderRequest {
  order_userId : string;
  order_items : list item;
  order_total : spec_float;
}.

(** Body of the POST issued to the notification service; the two data
    fields are [order.id] and [order.total], possibly [undefined]. *)
Record notification := Notification {
  notify_userId : string;
  notify_type : string;
  notify_orderId : option json;
  notify_total : option json;
}.

(** The keys of [config.services], in declaration order. *)
Inductive service := svc_auth | svc_product | svc_order | svc_notification.

Global Instance service_eq_dec : EqDecision service.
Proof. solve_decision. Defined.

Definition services : list service :=
  [svc_auth; svc_product; svc_order; svc_notification].

Definition service_name (s : service) : string :=
  match s with
  | svc_auth => "auth"
  | svc_product => "product"
  | svc_order => "order"
  | svc_notification => "notification"
  end.

(** The [health] object built by GET /health (timestamp and uptime left
    out). *)
Record health := Health {
  health_status : string;
  health_cache : string;
  health_services : gmap string string;
  health_database : json;
}.

Inductive payload :=
| PError (msg : string)
| PMessage (msg : string)
| PCart (c : list item)
| PJson (j : json)
| PClaims (c : claims)
| PHealth (h : health).

Record response := Response {
  status : Z;
  body : payload;
}.

(** ** Redis *)

(** A string value of the cache.  [VCart c] is the text
    [JSON.stringify(c)] of a cart.  [VStr s parsed] is any other text [s],
    with what [JSON.parse(s)] makes of it: [None] when it throws, else a
    value that is not an array of cart lines. *)
Inductive rval :=
| VStr (s : string) (parsed : option json)
| VCart (c : list item).

Record entry := Entry {
  value : rval;
  expires : Z;
}.

Record Redis := MkRedis {
  redis_up : bool;
  redis_data : gmap string entry;
}.

(** What a stored value looks like to [if (x)]. *)
Definition rval_truthy (v : rval) : bool :=
  match v with
  | VStr s _ => negb (bool_decide (s = ""))
  | VCart _ => true
  end.

(** ** Downstream services *)

(** Result of [fetch(url, ..)]: the promise rejects (connection failure,
    abort on timeout) or resolves to a response with a status and a body
    that [response.json()] can parse or not. *)
Inductive fetched (A : Type) :=
| NetworkError
| Http (st : Z) (bd : option A).
Arguments NetworkError {A}.
Arguments Http {A} st bd.

Definition ok (st : Z) : bool := (200 <=? st) && (st <=? 299).

Inductive call :=
| GetProduct (pid : Z)
| PostOrder (o : order_request)
| PostNotify (n : notification)
| GetHealth (s : service).

(** Everything outside the gateway process that a handler run depends on. *)
Record Env := MkEnv {
  jwt_verify : string → option claims;
  product_service : Z → fetched product;
  order_service : order_request → fetched json;
  notification_service : notification → fetched json;
  health_probe : service → fetched json;
  database_probe : fetched json;
}.

(** ** The handler monad *)

Record World := MkWorld {
  redis : Redis;
  sent : list call;
}.

Inductive outcome (A : Type) :=
| Val (a : A)
| Exn
| Reply (r : response).
Arguments Val {A} a.
Arguments Exn {A}.
Arguments Reply {A} r.

Definition handler (A : Type) : Type := World → outcome A * World.

Definition ret {A} (a : A) : handler A := λ w, (Val a, w).

Definition bind {A B} (m : handler A) (k : A → handler B) : handler B :=
  λ w, match m w with
       | (Val a, w') => k a w'
       | (Exn, w') => (Exn, w')
       | (Reply r, w') => (Reply r, w')
       end.

Definition throw {A} : handler A := λ w, (Exn, w).

(** [return res.status(st).json(b)] *)
Definition reply {A} (st : Z) (b : payload) : handler A :=
  λ w, (Reply (Response st b), w).

(** [try { m } catch (error) { h }] *)
Definition try_catch {A} (m h : handler A) : handler A :=
  λ w, match m w with
       | (Exn, w') => h w'
       | r => r
       end.

Notation "'let*' x ':=' m 'in' k" := (bind m (λ x, k))
  (at level 10, x name, m at level 100, k at level 200).
Notation "'do*' m 'in' k" := (bind m (λ _, k))
  (at level 10, m at level 100, k at level 200).

(** The response a route produces, if any, and the world it leaves. *)
Definition run (m : handler unit) (w : World) : option response * World :=
  match m w with
  | (Reply r, w') => (Some r, w')
  | (_, w') => (None, w')
  end.

(** *** Redis commands *)

Definition live (now : Z) (e : entry) : option rval :=
  if now <? expires e then Some (value e) else None.

Definition redis_get (now : Z) (k : string) : handler (option rval) :=
  λ w, if redis_up (redis w)
       then (Val (redis_data (redis w) !! k ≫= live now), w)
       else (Exn, w).

Definition redis_setex (now : Z) (k : string) (ttl : Z) (v : rval) : handler unit :=
  λ w, if redis_up (redis w)
       then (Val (), MkWorld (MkRedis true (<[k := Entry v (now + ttl)]> (redis_data (redis w))))
                             (sent w))
       else (Exn, w).

Definition redis_del (k : string) : handler unit :=
  λ w, if redis_up (redis w)
       then (Val (), MkWorld (MkRedis true (delete k (redis_data (redis w)))) (sent w))
       else (Exn, w).

Definition redis_ping : handler unit :=
  λ w, if redis_up (redis w) then (Val (), w) else (Exn, w).

(** [JSON.parse(cartData)] followed by the array methods the handlers
    call on the result: anything but an array makes them throw. *)
Definition parse_cart (v : rval) : handler (list item) :=
  match v with
  | VCart c => ret c
  | VStr _ _ => throw
  end.

(** [JSON.parse(cartData)] alone, as a response body. *)
Definition json_parse (v : rval) : handler payload :=
  match v with
  | VCart c => ret (PCart c)
  | VStr _ (Some j) => ret (PJson j)
  | VStr _ None => throw
  end.

(** *** Outbound HTTP *)

Record http_response (A : Type) := HttpResponse {
  http_status : Z;
  http_body : option A;
}.
Arguments HttpResponse {A} _ _.
Arguments http_status {A} _.
Arguments http_body {A} _.

Definition fetch {A} (c : call) (r : fetched A) : handler (http_response A) :=
  λ w, let w' := MkWorld (redis w) (sent w ++ [c]) in
       match r with
       | NetworkError => (Exn, w')
       | Http st bd => (Val (HttpResponse st bd), w')
       end.

(** [await response.json()] *)
Definition json_of {A} (r : http_response A) : handler A :=
  match http_body r with
  | Some a => ret a
  | None => throw
  end.

(** ** Authentication middleware *)

(** [s.split(" ")] *)
Fixpoint split_space (s : string) : list string :=
  match s with
  | EmptyString => [""]
  | String c s' =>
      if Ascii.eqb c " "%char then "" :: split_space s'
      else match split_space s' with
           | seg :: rest => String c seg :: rest
           | [] => [String c ""]
           end
  end.

(** [authHeader && authHeader.split(" ")[1]], with every falsy result
    ([undefined], the empty string) mapped to [None]. *)
Definition bearer_token (authHeader : option string) : option string :=
  match authHeader with
  | None => None
  | Some h =>
      match split_space h !! 1%nat with
      | Some t => if bool_decide (t = "") then None else Some t
      | None => None
      end
  end.

Definition blacklist_key (token : string) : string := "blacklist:" +:+ token.

Definition cart_key (u : claims) : string := "cart:" +:+ id u.

(** The middleware either replies itself or hands [req.user] to the
    next handler. *)
Definition authenticateToken (env : Env) (now : Z) (authHeader : option string)
  : handler claims :=
  match bearer_token authHeader with
  | None => reply 401 (PError "Authentication required")
  | Some token =>
      try_catch
        (let* isBlacklisted := redis_get now (blacklist_key token) in
         if from_option rval_truthy false isBlacklisted
         then reply 401 (PError "Token has been revoked")
         else match jwt_verify env token with
              | Some decoded => ret decoded
              | None => throw
              end)
        (reply 403 (PError "Invalid or expired token"))
  end.

(** [optionalAuth]: never replies; [req.user] is set only when the
    token is neither revoked nor invalid. *)
Definition optionalAuth (env : Env) (now : Z) (authHeader : option string)
  : handler (option claims) :=
  match bearer_token authHeader with
  | None => ret None
  | Some token =>
      try_catch
        (let* isBlacklisted := redis_get now (blacklist_key token) in
         if from_option rval_truthy false isBlacklisted then ret None
         else match jwt_verify env token with
              | Some decoded => ret (Some decoded)
              | None => throw
              end)
        (ret None)
  end.

(** [app.post("/auth/logout", authenticateToken, ..)]: the token that
    just passed the middleware is blacklisted for its remaining lifetime
    ([now] is the clock in seconds; [jwt.decode] of a verified token gives
    the payload the middleware attached). *)
Definition postLogout (now : Z) (token : string) (user : claims) : handler unit :=
  let ttl := exp user - now in
  do* (if 0 <? ttl
       then redis_setex now (blacklist_key token) ttl (VStr "1" (Some (JNum 1)))
       else ret ()) in
  reply 200 (PMessage "Logged out successfully").

(** ** Health check *)

Definition with_status (s : string) (h : health) : health :=
  Health s (health_cache h) (health_services h) (health_database h).

Definition with_cache (c : string) (h : health) : health :=
  Health (health_status h) c (health_services h) (health_database h).

Definition with_service (n v : string) (h : health) : health :=
  Health (health_status h) (health_cache h) (<[n := v]> (health_services h))
         (health_database h).

Definition with_database (d : json) (h : health) : health :=
  Health (health_status h) (health_cache h) (health_services h) d.

(** One element of [serviceChecks].  The checks run concurrently but
    write distinct keys of [health.services] and can only move
    [health.status] to "degraded", so their combined effect on [health]
    is that of running them in the order of [config.services]. *)
Definition serviceCheck (env : Env) (h : health) (s : service) : handler health :=
  try_catch
    (let* response := fetch (GetHealth s) (health_probe env s) in
     ret (with_service (service_name s)
            (if ok (http_status response) then "healthy" else "unhealthy") h))
    (ret (with_status "degraded" (with_service (service_name s) "unreachable" h))).

Fixpoint serviceChecks (env : Env) (h : health) (ss : list service) : handler health :=
  match ss with
  | [] => ret h
  | s :: ss' => let* h' := serviceCheck env h s in serviceChecks env h' ss'
  end.

(** The block under "Check Redis". *)
Definition checkRedis (h : health) : handler health :=
  try_catch
    (do* redis_ping in ret (with_cache "connected" h))
    (ret (with_status "degraded" (with_cache "disconnected" h))).

(** The block under "Also add database status from auth service":
    [health.database = authData.database || "unknown"]. *)
Definition checkDatabase (env : Env) (h : health) : handler health :=
  try_catch
    (let* authHealth := fetch (GetHealth svc_auth) (database_probe env) in
     let* authData := json_of authHealth in
     match get_prop authData "database" with
     | None => throw
     | Some (Some d) => ret (with_database (if truthy d then d else JStr "unknown") h)
     | Some None => ret (with_database (JStr "unknown") h)
     end)
    (ret (with_database (JStr "unknown") h)).

(** [health.cache] and [health.database] are assigned on every path
    before the object is sent; their initial values are placeholders. *)
Definition getHealth (env : Env) : handler unit :=
  let health := Health "healthy" "" ∅ JNull in
  let* health := checkRedis health in
  let* health := serviceChecks env health services in
  let* health := checkDatabase env health in
  let statusCode := if bool_decide (health_status health = "healthy") then 200 else 503 in
  reply statusCode (PHealth health).

(** ** Cart routes *)

Definition has_pid (p : Z) (it : item) : Prop := productId it = p.

Global Instance has_pid_dec p it : Decision (has_pid p it).
Proof. unfold has_pid. apply _. Defined.

(** Assignment to the [quantity] field of an item of the cart. *)
Definition set_quantity (q : Z) (it : item) : item :=
  Item (productId it) (name it) (price it) (image it) q.

Definition cart_ttl : Z := 86400 * 7.

(** [let cart = []; const cartData = await redis.get(cartKey);
     if (cartData) cart = JSON.parse(cartData);] *)
Definition load_cart (now : Z) (cartKey : string) : handler (list item) :=
  let* cartData := redis_get now cartKey in
  match cartData with
  | Some v => if rval_truthy v then parse_cart v else ret []
  | None => ret []
  end.

(** [res.json(cartData ? JSON.parse(cartData) : [])]: the parsed value
    is sent as it is, no array method is called on it. *)
Definition getCart (now : Z) (user : claims) : handler unit :=
  try_catch
    (let* cartData := redis_get now (cart_key user) in
     match cartData with
     | Some v =>
         if rval_truthy v
         then let* parsed := json_parse v in reply 200 parsed
         else reply 200 (PCart [])
     | None => reply 200 (PCart [])
     end)
    (reply 500 (PError "Failed to fetch cart")).

Definition postCartAdd (env : Env) (now : Z) (user : claims) (pid qty : Z)
  : handler unit :=
  try_catch
    (let cartKey := cart_key user in
     let* cart := load_cart now cartKey in
     let* cart :=
       match list_find (has_pid pid) cart with
       | Some (i, existingItem) =>
           ret (<[i := set_quantity (quantity existingItem + qty) existingItem]> cart)
       | None =>
           let* productResponse :=
             fetch (GetProduct pid) (product_service env pid) in
           if negb (ok (http_status productResponse))
           then reply 404 (PError "Product not found")
           else
             let* product := json_of productResponse in
             ret (cart ++ [Item pid (product_name product) (product_price product)
                                (product_image product) qty])
       end in
     do* redis_setex now cartKey cart_ttl (VCart cart) in
     reply 200 (PCart cart))
    (reply 500 (PError "Failed to add to cart")).

(** Body of the [for (const item of items)] loop of /cart/sync. *)
Definition merge_item (cart : list item) (it : item) : list item :=
  match list_find (has_pid (productId it)) cart with
  | Some (i, existing) =>
      <[i := set_quantity (Z.max (quantity existing) (quantity it)) existing]> cart
  | None => cart ++ [it]
  end.

Definition postCartSync (now : Z) (user : claims) (items : list item)
  : handler unit :=
  try_catch
    (let cartKey := cart_key user in
     let* cart := load_cart now cartKey in
     let cart := foldl merge_item cart items in
     do* redis_setex now cartKey cart_ttl (VCart cart) in
     reply 200 (PCart cart))
    (reply 500 (PError "Failed to sync cart")).

Definition deleteCart (user : claims) : handler unit :=
  try_catch
    (do* redis_del (cart_key user) in
     reply 200 (PMessage "Cart cleared"))
    (reply 500 (PError "Failed to clear cart")).

(** ** Checkout *)

(** [(sum, item) => sum + item.price * item.quantity] *)
Definition add_line (sum : spec_float) (it : item) : spec_float :=
  Double.add sum (Double.mul (price it) (Double.of_Z (quantity it))).

(** [cart.reduce((sum, item) => sum + item.price * item.quantity, 0)] *)
Definition cart_total (cart : list item) : spec_float :=
  foldl add_line (Double.of_Z 0) cart.

Definition postOrders (env : Env) (now : Z) (user : claims) : handler unit :=
  try_catch
    (let cartKey := cart_key user in
     let* cartData := redis_get now cartKey in
     match cartData with
     | None => reply 400 (PError "Cart is empty")
     | Some v =>
         if negb (rval_truthy v) then reply 400 (PError "Cart is empty")
         else
           let* cart := parse_cart v in
           let request := OrderRequest (id user) cart (cart_total cart) in
           let* orderResponse := fetch (PostOrder request) (order_service env request) in
           if negb (ok (http_status orderResponse))
           then
             let* error := json_of orderResponse in
             reply (http_status orderResponse) (PJson error)
           else
             let* order := json_of orderResponse in
             do* redis_del cartKey in
             do* try_catch
                   (match get_prop order "id", get_prop order "total" with
                    | Some orderId, Some total =>
                        let n := Notification (id user) "order_created" orderId total in
                        do* fetch (PostNotify n) (notification_service env n) in
                        ret ()
                    | _, _ => throw
                    end)
                   (ret ()) in
             reply 201 (PJson order)
     end)
    (reply 500 (PError "Failed to create order")).

(** A protected route: the middleware, then the handler with [req.user]. *)
Definition authenticated (env : Env) (now : Z) (authHeader : option string)
    (h : claims → handler unit) : handler unit :=
  let* user := authenticateToken env now authHeader in h user.

(** ** Rate limiting *)

(** Modelled from the spec: the middleware built by [rateLimit({..})] of
    the [express-rate-limit] package, which the gateway configures and
    mounts but does not contain.  Spec §3: a per-client-identity counter
    with a fixed time window and maximum count, which resets when the
    window elapses; §8: with limit N, the N+1-th request of a window from
    the same identity is rejected with 429. *)
Module RateLimit.

Record options := Options {
  windowMs : Z;
  max : Z;
  message : string;
  skip : string → bool;
}.

Record window := Window {
  hits : Z;
  resetTime : Z;
}.

(** The client's window after one more request at time [now] (in
    milliseconds): the current one with its counter incremented, or a new
    one when there is none or it has elapsed. *)
Definition increment (o : options) (now : Z) (cur : option window) : window :=
  match cur with
  | Some w =>
      if now <? resetTime w then Window (hits w + 1) (resetTime w)
      else Window 1 (now + windowMs o)
  | None => Window 1 (now + windowMs o)
  end.

(** The middleware: [None] stands for [next()]. *)
Definition rateLimit (o : options) (now : Z) (ip path : string)
    (store : gmap string window) : option response * gmap string window :=
  if skip o path then (None, store)
  else
    let w := increment o now (store !! ip) in
    let store' := <[ip := w]> store in
    if max o <? hits w then (Some (Response 429 (PError (message o))), store')
    else (None, store').

End RateLimit.

Definition generalLimiter : RateLimit.options :=
  RateLimit.Options (15 * 60 * 1000) 100
    "Too many requests, please try again later"
    (λ path, bool_decide (path = "/health")).

Definition authLimiter : RateLimit.options :=
  RateLimit.Options (15 * 60 * 1000) 10
    "Too many authentication attempts"
    (λ _, false).

(** Letter case does not count when Express matches a path against a
    mount point; the letters concerned are those of ASCII. *)
Definition lower_ascii (c : ascii) : ascii :=
  let n := nat_of_ascii c in
  if (65 <=? n)%nat && (n <=? 90)%nat then ascii_of_nat (n + 32) else c.

Fixpoint lower (s : string) : string :=
  match s with
  | EmptyString => EmptyString
  | String c s' => String (lower_ascii c) (lower s')
  end.

(** [app.use(prefix, ..)]: the middleware runs for [prefix] itself and for
    every path below it, in any letter case. *)
Definition mounted_at (prefix path : string) : bool :=
  let prefix := lower prefix in
  let path := lower path in
  bool_decide (path = prefix) || String.prefix (prefix +:+ "/") path.

Record Limits := MkLimits {
  general_store : gmap string RateLimit.window;
  auth_store : gmap string RateLimit.window;
}.

(** The two [app.use] lines in the order a request meets them:
    [app.use(generalLimiter)] for every request, then
    [app.use("/auth", authLimiter)]. *)
Definition limiters (now : Z) (ip path : string) (s : Limits)
  : option response * Limits :=
  match RateLimit.rateLimit generalLimiter now ip path (general_store s) with
  | (Some r, g) => (Some r, MkLimits g (auth_store s))
  | (None, g) =>
      if mounted_at "/auth" path then
        match RateLimit.rateLimit authLimiter now ip path (auth_store s) with
        | (r, a) => (r, MkLimits g a)
        end
      else (None, MkLimits g (auth_store s))
  end.

(** An incoming request as the limiters see it. *)
Record arrival := Arrival {
  at_ms : Z;
  from_ip : string;
  to_path : string;
}.

(** What the limiters answer to each request of a sequence. *)
Fixpoint verdicts (reqs : list arrival) (s : Limits) : list (option response) :=
  match reqs with
  | [] => []
  | r :: rs =>
      let '(v, s') := limiters (at_ms r) (from_ip r) (to_path r) s in
      v :: verdicts rs s'
  end.

(** * Vocabulary of the statements *)

(** The routes each policy applies to, read off the chain of limiters: a
    policy applies to a path when a request to that path can move the
    policy's counters. *)
Definition general_applies (path : string) : Prop :=
  ∃ now ip s, general_store (limiters now ip path s).2 ≠ general_store s.

Definition auth_applies (path : string) : Prop :=
  ∃ now ip s, auth_store (limiters now ip path s).2 ≠ auth_store s.

(** A store of windows after its limiter has counted one more request of
    client [ip] at time [now]. *)
Definition counting (o : RateLimit.options) (now : Z) (ip : string)
    (store : gmap string RateLimit.window) : gmap string RateLimit.window :=
  <[ip := RateLimit.increment o now (store !! ip)]> store.

(** The requests that are login attempts of client [ip]. *)
Definition is_login (ip : string) (r : arrival) : bool :=
  bool_decide (from_ip r = ip) && bool_decide (to_path r = "/auth/login").

Definition logins (ip : string) (reqs : list arrival) : nat :=
  foldr (λ r n, if is_login ip r then S n else n) 0%nat reqs.

(** The number of requests counted against client [ip] so far. *)
Definition counted (ip : string) (store : gmap string RateLimit.window) : Z :=
  from_option RateLimit.hits 0 (store !! ip).

(** The current window of client [ip], if it has one, ends no earlier
    than [T]. *)
Definition window_outlasts (T : Z) (ip : string)
    (store : gmap string RateLimit.window) : Prop :=
  ∀ w, store !! ip = Some w → T ≤ RateLimit.resetTime w ∧ 0 ≤ RateLimit.hits w.

(** [cart.find(c => c.productId === p)], then an in-place update of the
    [quantity] of the item found: the first item with that product id
    changes, nothing else does. *)
Fixpoint update_first (f : Z → Z) (p : Z) (cart : list item) : option (list item) :=
  match cart with
  | [] => None
  | c :: cs =>
      if decide (productId c = p)
      then Some (set_quantity (f (quantity c)) c :: cs)
      else (c ::.) <$> update_first f p cs
  end.

(** The quantity recorded for product [p]: that of the item [find]
    returns. *)
Definition qty_of (p : Z) (cart : list item) : option Z :=
  (quantity ∘ snd) <$> list_find (has_pid p) cart.

Definition pids (cart : list item) : list Z := productId <$> cart.

(** Two items that differ at most in their quantity. *)
Definition same_product (a b : item) : Prop :=
  productId a = productId b ∧ name a = name b ∧ price a = price b
  ∧ image a = image b.

(** Combination of an absent-or-present stored quantity with an
    absent-or-present incoming one. *)
Definition omax (a b : option Z) : option Z :=
  match a, b with
  | Some x, Some y => Some (Z.max x y)
  | Some x, None => Some x
  | None, _ => b
  end.

(** The largest quantity the request carries for product [p], if it
    mentions [p] at all. *)
Definition incoming_qty (p : Z) (items : list item) : option Z :=
  foldr (λ it acc, if decide (productId it = p)
                   then omax (Some (quantity it)) acc else acc) None items.

(** [cart_at now user w cart]: the cache is reachable and, at time [now],
    holds [cart] for [user] (no live entry standing for the empty cart).
    This is the cart GET /cart returns. *)
Definition cart_at (now : Z) (user : claims) (w : World) (cart : list item) : Prop :=
  redis_up (redis w) = true ∧
  match redis_data (redis w) !! cart_key user ≫= live now with
  | None => cart = []
  | Some v => v = VCart cart
  end.

(** [stored_cart now user w cart]: the cache is reachable and has a live
    entry under the user's cart key, holding [cart]. *)
Definition stored_cart (now : Z) (user : claims) (w : World) (cart : list item) : Prop :=
  redis_up (redis w) = true ∧
  redis_data (redis w) !! cart_key user ≫= live now = Some (VCart cart).

(** The world after [redis.setex(cartKey, 86400 * 7, JSON.stringify(cart))]. *)
Definition with_cart (now : Z) (user : claims) (cart : list item) (w : World) : World :=
  MkWorld (MkRedis true (<[cart_key user := Entry (VCart cart) (now + cart_ttl)]>
                           (redis_data (redis w))))
          (sent w).

(** The world after one more outbound request. *)
Definition having_sent (c : call) (w : World) : World :=
  MkWorld (redis w) (sent w ++ [c]).

(** Progress of the pair of limiters towards rejecting the logins of
    [ip]: after [n] login attempts either the general counter is past its
    maximum or the auth counter has seen all of them. *)
Definition login_progress (ip : string) (s : Limits) (n : nat) : Prop :=
  101 ≤ counted ip (general_store s) ∨ Z.of_nat n ≤ counted ip (auth_store s).

(** The entry of [health.services] a probe outcome leads to. *)
Definition service_label (env : Env) (s : service) : string :=
  match health_probe env s with
  | NetworkError => "unreachable"
  | Http st _ => if ok st then "healthy" else "unhealthy"
  end.

(** One POST /cart/add request of a user: arrival time and body. *)
Record add_call := AddCall {
  add_at : Z;
  add_pid : Z;
  add_qty : Z;
}.

(** A sequence of POST /cart/add requests of one user, served one after
    the other: the responses and the world they leave. *)
Fixpoint add_items (env : Env) (user : claims) (calls : list add_call) (w : World)
  : list (option response) * World :=
  match calls with
  | [] => ([], w)
  | c :: cs =>
      let '(r, w1) := run (postCartAdd env (add_at c) user (add_pid c) (add_qty c)) w in
      let '(rs, w2) := add_items env user cs w1 in
      (r :: rs, w2)
  end.

Definition successful (r : option response) : Prop :=
  ∃ b, r = Some (Response 200 b).

(** Sum of the quantities the calls pass for product [p]. *)
Definition added (p : Z) (calls : list add_call) : Z :=
  foldr (λ c acc, if decide (add_pid c = p) then add_qty c + acc else acc) 0 calls.

(** The cart POST /cart/add stores and returns, when it succeeds. *)
Definition added_cart (env : Env) (cart : list item) (pid qty : Z)
  : option (list item) :=
  match update_first (λ q, q + qty) pid cart with
  | Some cart' => Some cart'
  | None =>
      match product_service env pid with
      | Http st (Some product) =>
          if ok st
          then Some (cart ++ [Item pid (product_name product) (product_price product)
                                   (product_image product) qty])
          else None
      | _ => None
      end
  end.

(** The rest of POST /orders once the order service has answered with
    a success status and the payload [order]: clear the cart, try to
    notify, answer 201. *)
Definition after_order (env : Env) (user : claims) (order : json) : handler unit :=
  try_catch
    (do* redis_del (cart_key user) in
     do* try_catch
           (match get_prop order "id", get_prop order "total" with
            | Some orderId, Some total =>
                let n := Notification (id user) "order_created" orderId total in
                do* fetch (PostNotify n) (notification_service env n) in
                ret ()
            | _, _ => throw
            end)
           (ret ()) in
     reply 201 (PJson order))
    (reply 500 (PError "Failed to create order")).

Ltac unfold_handler :=
  unfold run, authenticated, getCart, postCartAdd, postCartSync, deleteCart,
    postOrders, load_cart, parse_cart, json_parse, json_of, fetch, try_catch, bind, ret,
    throw, reply, redis_get, redis_setex, redis_del, redis_ping.

(** * Vocabulary of the further properties *)

(** A string without the separator of [split(" ")]. *)
Fixpoint space_free (s : string) : bool :=
  match s with
  | EmptyString => true
  | String c s' => negb (Ascii.eqb c " "%char) && space_free s'
  end.

(** No live, truthy revocation marker for [token] at time [now]. *)
Definition not_revoked (now : Z) (token : string) (w : World) : Prop :=
  from_option rval_truthy false
    (redis_data (redis w) !! blacklist_key token ≫= live now) = false.

(** The cart routes as requests of an authenticated user. *)
Inductive cart_request :=
| GetCart (now : Z)
| AddItem (now pid qty : Z)
| SyncCart (now : Z) (items : list item)
| ClearCart
| Checkout (now : Z).

Definition cart_route (env : Env) (user : claims) (r : cart_request) : handler unit :=
  match r with
  | GetCart now => getCart now user
  | AddItem now pid qty => postCartAdd env now user pid qty
  | SyncCart now items => postCartSync now user items
  | ClearCart => deleteCart user
  | Checkout now => postOrders env now user
  end.

(** The world after serving one request. *)
Definition serve (env : Env) (w : World) (r : claims * cart_request) : World :=
  (run (cart_route env r.1 r.2) w).2.

(** The message of the 500 answer of each route's catch block. *)
Definition failure_message (r : cart_request) : string :=
  match r with
  | GetCart _ => "Failed to fetch cart"
  | AddItem _ _ _ => "Failed to add to cart"
  | SyncCart _ _ => "Failed to sync cart"
  | ClearCart => "Failed to clear cart"
  | Checkout _ => "Failed to create order"
  end.

(** The world once the connection to the cache is lost. *)
Definition cache_lost (w : World) : World :=
  MkWorld (MkRedis false (redis_data (redis w))) (sent w).

(** Every cart blob in the cache is unique by product id. *)
Definition carts_unique (w : World) : Prop :=
  ∀ k e c, redis_data (redis w) !! k = Some e → value e = VCart c → NoDup (pids c).

(** What one cart request of [user] can do to the cache: nothing, store a
    cart under the user's key, or delete that key. *)
Definition cart_step (user : claims) (w w' : World) : Prop :=
  redis w' = redis w
  ∨ (∃ c' e,
       redis w' = MkRedis true (<[cart_key user := Entry (VCart c') e]>
                                  (redis_data (redis w)))
       ∧ redis_up (redis w) = true
       ∧ (carts_unique w → NoDup (pids c')))
  ∨ (redis w' = MkRedis true (delete (cart_key user) (redis_data (redis w)))
     ∧ redis_up (redis w) = true).

(** ** The storefront: the cart functions of
    [services/frontend/src/app.js], the callers of the cart routes *)

Module Frontend.

(** An element of [products], as loaded from GET /products. *)
Record product := Product {
  id : Z;
  name : string;
  price : spec_float;
  image : string;
}.

(** [addToCart(productId)], as a function of the [products] and [cart]
    variables, returning the new [cart]. *)
Definition addToCart (products : list product) (cart : list item) (pid : Z)
  : list item :=
  match list_find (λ p, id p = pid) products with
  | None => cart
  | Some (_, product) =>
      match list_find (has_pid pid) cart with
      | Some (i, existingItem) =>
          <[i := set_quantity (quantity existingItem + 1) existingItem]> cart
      | None => cart ++ [Item pid (name product) (price product) (image product) 1]
      end
  end.

(** [updateCartQuantity(productId, delta)] *)
Definition updateCartQuantity (cart : list item) (pid delta : Z) : list item :=
  match list_find (has_pid pid) cart with
  | None => cart
  | Some (i, it) =>
      let quantity' := quantity it + delta in
      let cart := <[i := set_quantity quantity' it]> cart in
      if quantity' <=? 0 then filter (λ i, productId i ≠ pid) cart else cart
  end.

(** [removeFromCart(productId)] *)
Definition removeFromCart (cart : list item) (pid : Z) : list item :=
  filter (λ i, productId i ≠ pid) cart.

(** [syncCart()], as a function of [currentUser] (only whether it is
    set matters), the token in local storage, the local [cart] and the
    gateway, returning the new local [cart] and the gateway's world.  The
    two requests reach the gateway's routes at times [now1] and [now2];
    the answer to the first is not looked at, the second replaces the
    local cart when its status is a success.  ([cart] is typed as a list
    of items: a success answer whose body is not a cart, which GET /cart
    gives only when the cart key holds a foreign text, leaves it as it
    is here.) *)
Definition syncCart (env : Env) (now1 now2 : Z) (currentUser : bool)
    (token : string) (cart : list item) (w : World) : list item * World :=
  if negb currentUser then (cart, w)
  else
    let authorization := Some ("Bearer " +:+ token) in
    let w1 :=
      match cart with
      | [] => w
      | _ :: _ =>
          (run (authenticated env now1 authorization
                  (λ user, postCartSync now1 user cart)) w).2
      end in
    match run (authenticated env now2 authorization (getCart now2)) w1 with
    | (Some (Response st (PCart c)), w2) => if ok st then (c, w2) else (cart, w2)
    | (_, w2) => (cart, w2)
    end.

(** [syncCartItem(productId, quantity)]: the POST /cart/add that
    [addToCart] fires when a user is logged in; the answer is not looked
    at.  The world the gateway is left in. *)
Definition syncCartItem (env : Env) (now : Z) (token : string) (pid qty : Z)
    (w : World) : World :=
  (run (authenticated env now (Some ("Bearer " +:+ token))
          (λ user, postCartAdd env now user pid qty)) w).2.

(** [checkout()], as a function of [currentUser], the token, the local
    [cart] and the gateway, returning the new local [cart] and the
    gateway's world: the local cart is emptied when the gateway answers
    with a success status. *)
Definition checkout (env : Env) (now : Z) (currentUser : bool) (token : string)
    (cart : list item) (w : World) : list item * World :=
  if negb currentUser then (cart, w)
  else
    match cart with
    | [] => (cart, w)
    | _ :: _ =>
        match run (authenticated env now (Some ("Bearer " +:+ token))
                     (postOrders env now)) w with
        | (Some r, w') => if ok (status r) then ([], w') else (cart, w')
        | (None, w') => (cart, w')
        end
    end.

(** A click in the storefront that changes the local cart. *)
Inductive action :=
| Add (pid : Z)
| Update (pid delta : Z)
| Remove (pid : Z).

Definition act (products : list product) (cart : list item) (a : action) : list item :=
  match a with
  | Add pid => addToCart products cart pid
  | Update pid delta => updateCartQuantity cart pid delta
  | Remove pid => removeFromCart cart pid
  end.

End Frontend.

(** A cart without repeated product ids in which every quantity is at
    least one. *)
Definition tidy (cart : list item) : Prop :=
  NoDup (pids cart) ∧ Forall (λ it, 1 ≤ quantity it) cart.

(** ** The notification service's connection registry
    ([services/notification-service/src/index.js]), the receiver of the
    POST /notify the checkout sends *)

Module Notifier.

(** What is passed to [ws.send]: the welcome message, the confirmation
    of an "auth" message, or a notification. *)
Inductive frame :=
| Connected
| AuthSuccess
| Notification (message : json).

(** The state of the service that the WebSocket handlers and the send
    functions share.  Sockets are numbered in the order the server
    accepted them.  [clients] is [wss.clients], the sockets that are open;
    [userId] holds, per socket, the [userId] variable of its connection
    handler once it is set; [received] is the frames sent on each
    socket, oldest first. *)
Record Hub := MkHub {
  next : nat;
  clients : gset nat;
  userId : gmap nat string;
  userConnections : gmap string (gset nat);
  received : gmap nat (list frame);
}.

Definition empty : Hub := MkHub 0 ∅ ∅ ∅ ∅.

(** [ws.send(..)] *)
Definition send (f : frame) (ws : nat) (h : Hub) : Hub :=
  MkHub (next h) (clients h) (userId h) (userConnections h)
        (<[ws := default [] (received h !! ws) ++ [f]]> (received h)).

(** [wss.on("connection", ..)]: a new socket is open and is sent the
    welcome message. *)
Definition onConnection (h : Hub) : Hub :=
  let ws := next h in
  send Connected ws
    (MkHub (S ws) ({[ws]} ∪ clients h) (userId h) (userConnections h) (received h)).

(** [ws.on("message", ..)] for a message that parses to
    [{type, userId}].  [uid] is [None] when [message.userId] is absent or
    falsy, and [Some (message.userId.toString())] when it is truthy; the
    text of a truthy value can be empty (that of [[]] is).  A message of
    another type, or one that does not parse, changes nothing. *)
Definition onMessage (ws : nat) (type : string) (uid : option string) (h : Hub)
  : Hub :=
  if decide (ws ∈ clients h) then
    if bool_decide (type = "auth") then
      match uid with
      | Some uid =>
          let conns := default ∅ (userConnections h !! uid) in
          send AuthSuccess ws
            (MkHub (next h) (clients h) (<[ws := uid]> (userId h))
                   (<[uid := {[ws]} ∪ conns]> (userConnections h)) (received h))
      | None => h
      end
    else h
  else h.

(** [ws.on("close", ..)]: the socket leaves [wss.clients]; when its
    [userId] is set and not the empty text ([if (userId && ..)]), it is
    taken out of the set of that user, and the set is dropped when it
    becomes empty. *)
Definition onClose (ws : nat) (h : Hub) : Hub :=
  if decide (ws ∈ clients h) then
    let registry :=
      match userId h !! ws with
      | Some uid =>
          if bool_decide (uid = "") then userConnections h
          else
            match userConnections h !! uid with
            | Some conns =>
                let conns := conns ∖ {[ws]} in
                if decide (size conns = 0%nat) then delete uid (userConnections h)
                else <[uid := conns]> (userConnections h)
            | None => userConnections h
            end
      | None => userConnections h
      end in
    MkHub (next h) (clients h ∖ {[ws]}) (userId h) registry (received h)
  else h.

(** [sendToUser(userId, message)]: the payload goes to every socket of
    the user's set that is open; the result is whether any was. *)
Definition sendToUser (uid : string) (message : json) (h : Hub) : bool * Hub :=
  match userConnections h !! uid with
  | None => (false, h)
  | Some connections =>
      if decide (size connections = 0%nat) then (false, h)
      else
        let targets := filter (λ ws, ws ∈ clients h) (elements connections) in
        (bool_decide (0 < length targets)%nat,
         foldr (send (Notification message)) h targets)
  end.

(** [broadcast(message)]: the payload goes to every open socket; the
    result is their number. *)
Definition broadcast (message : json) (h : Hub) : nat * Hub :=
  let targets := elements (clients h) in
  (length targets, foldr (send (Notification message)) h targets).

(** What can happen to the service. *)
Inductive event :=
| Connection
| Message (ws : nat) (type : string) (uid : option string)
| Close (ws : nat)
| SendToUser (uid : string) (message : json)
| Broadcast (message : json).

Definition step (h : Hub) (e : event) : Hub :=
  match e with
  | Connection => onConnection h
  | Message ws type uid => onMessage ws type uid h
  | Close ws => onClose ws h
  | SendToUser uid message => (sendToUser uid message h).2
  | Broadcast message => (broadcast message h).2
  end.

End Notifier.

(** The registry is sound for the open sockets: no user has an empty
    set, every open socket is in the set of the user it last
    authenticated as, and only sockets the server accepted occur. *)
Definition registry_sound (h : Notifier.Hub) : Prop :=
  (∀ uid conns, Notifier.userConnections h !! uid = Some conns → conns ≠ ∅)
  ∧ (∀ ws uid, ws ∈ Notifier.clients h → Notifier.userId h !! ws = Some uid →
       ∃ conns, Notifier.userConnections h !! uid = Some conns ∧ ws ∈ conns)
  ∧ (∀ ws, ws ∈ Notifier.clients h → (ws < Notifier.next h)%nat)
  ∧ (∀ ws, is_Some (Notifier.userId h !! ws) → (ws < Notifier.next h)%nat).




(** * Facts about the cart operations *)

Section CartFacts.

Lemma find_update (f : Z → Z) (p : Z) (cart : list item) :
  match list_find (has_pid p) cart with
  | Some (i, e) => Some (<[i := set_quantity (f (quantity e)) e]> cart)
  | None => None
  end = update_first f p cart.
Proof.
  induction cart as [|c cs IH]; simpl; [done|].
  unfold has_pid at 1. destruct (decide (productId c = p)); simpl; [done|].
  rewrite <- IH. destruct (list_find (has_pid p) cs) as [[i e]|]; done.
Qed.

Lemma merge_item_update (cart : list item) (it : item) :
  merge_item cart it =
  default (cart ++ [it])
    (update_first (λ q, Z.max q (quantity it)) (productId it) cart).
Proof.
  unfold merge_item.
  rewrite <- (find_update (λ q, Z.max q (quantity it))).
  destruct (list_find _ cart) as [[i e]|]; done.
Qed.

Lemma qty_of_nil p : qty_of p [] = None.
Proof. done. Qed.

Lemma qty_of_cons p c cs :
  qty_of p (c :: cs) =
  if decide (productId c = p) then Some (quantity c) else qty_of p cs.
Proof.
  unfold qty_of. simpl. unfold has_pid at 1.
  destruct (decide (productId c = p)); simpl; [done|].
  destruct (list_find (has_pid p) cs) as [[i e]|]; done.
Qed.

Lemma qty_of_None p cart : qty_of p cart = None ↔ p ∉ pids cart.
Proof.
  unfold pids. induction cart as [|c cs IH]; simpl.
  - rewrite qty_of_nil. split; [intros _; apply not_elem_of_nil | done].
  - rewrite qty_of_cons, not_elem_of_cons.
    destruct (decide (productId c = p)) as [Hc|Hc].
    + split; [done|]. intros [Hne _]. by destruct Hne.
    + rewrite IH. split; [by intros ?; split|by intros [_ ?]].
Qed.

Lemma qty_of_app p c1 c2 :
  qty_of p (c1 ++ c2) =
  match qty_of p c1 with Some q => Some q | None => qty_of p c2 end.
Proof.
  induction c1 as [|c cs IH]; simpl; [done|].
  rewrite !qty_of_cons. destruct (decide (productId c = p)); done.
Qed.

Lemma update_first_None f p cart :
  update_first f p cart = None ↔ qty_of p cart = None.
Proof.
  induction cart as [|c cs IH]; simpl; [done|].
  rewrite qty_of_cons. destruct (decide (productId c = p)); [done|].
  rewrite <- IH. destruct (update_first f p cs); done.
Qed.

Lemma update_first_qty f p cart cart' p' :
  update_first f p cart = Some cart' →
  qty_of p' cart' = if decide (p = p') then f <$> qty_of p cart else qty_of p' cart.
Proof.
  revert cart'. induction cart as [|c cs IH]; intros cart'; simpl; [done|].
  rewrite (qty_of_cons p c cs), (qty_of_cons p' c cs).
  destruct (decide (productId c = p)) as [Hc|Hc].
  - intros [= <-]. rewrite qty_of_cons. simpl.
    repeat case_decide; simplify_eq; done.
  - destruct (update_first f p cs) as [cs'|] eqn:E; [|done].
    intros [= <-]. rewrite qty_of_cons. rewrite (IH cs' eq_refl).
    repeat case_decide; simplify_eq; done.
Qed.

Lemma update_first_pids f p cart cart' :
  update_first f p cart = Some cart' → pids cart' = pids cart.
Proof.
  unfold pids. revert cart'. induction cart as [|c cs IH]; intros cart'; simpl; [done|].
  destruct (decide (productId c = p)).
  - intros [= <-]. done.
  - destruct (update_first f p cs) as [cs'|]; [|done].
    intros [= <-]. simpl. f_equal. by apply IH.
Qed.

Global Instance same_product_refl : Reflexive same_product.
Proof. by intros a. Qed.

Global Instance same_product_trans : Transitive same_product.
Proof.
  intros a b c (? & ? & ? & ?) (? & ? & ? & ?). repeat split; congruence.
Qed.

Lemma update_first_same f p cart cart' :
  update_first f p cart = Some cart' → Forall2 same_product cart cart'.
Proof.
  revert cart'. induction cart as [|c cs IH]; intros cart'; simpl; [done|].
  destruct (decide (productId c = p)).
  - intros [= <-]. constructor; [done | reflexivity].
  - destruct (update_first f p cs) as [cs'|]; [|done].
    intros [= <-]. constructor; [reflexivity | by apply IH].
Qed.

Lemma omax_assoc a b c : omax (omax a b) c = omax a (omax b c).
Proof. destruct a, b, c; simpl; try done. by rewrite Z.max_assoc. Qed.

Lemma merge_item_qty cart it p :
  qty_of p (merge_item cart it) =
  if decide (productId it = p)
  then omax (qty_of p cart) (Some (quantity it))
  else qty_of p cart.
Proof.
  rewrite merge_item_update.
  destruct (update_first _ (productId it) cart) as [cart'|] eqn:E; simpl.
  - rewrite (update_first_qty _ _ _ _ p E).
    destruct (decide (productId it = p)) as [<-|Hne]; [|done].
    destruct (qty_of (productId it) cart) as [q|] eqn:Q; simpl; [done|].
    apply (update_first_None (λ q, Z.max q (quantity it))) in Q. congruence.
  - apply update_first_None in E. rewrite qty_of_app, qty_of_cons, qty_of_nil.
    destruct (decide (productId it = p)) as [<-|Hne].
    + by rewrite E.
    + by destruct (qty_of p cart).
Qed.

Lemma merge_items_qty items cart p :
  qty_of p (foldl merge_item cart items) =
  omax (qty_of p cart) (incoming_qty p items).
Proof.
  revert cart. induction items as [|it items IH]; intros cart; simpl.
  - by destruct (qty_of p cart).
  - rewrite IH, merge_item_qty.
    destruct (decide (productId it = p)); [|done]. by rewrite omax_assoc.
Qed.

End CartFacts.

(** * Running the cart routes *)

Section CartRoutes.

Lemma load_cart_at now user w cart :
  cart_at now user w cart →
  load_cart now (cart_key user) w = (Val cart, w).
Proof.
  intros [Hup Hc]. unfold_handler. rewrite Hup.
  destruct (redis_data (redis w) !! cart_key user ≫= live now) as [v|];
    subst; done.
Qed.

Lemma getCart_at now user w cart :
  cart_at now user w cart →
  run (getCart now user) w = (Some (Response 200 (PCart cart)), w).
Proof.
  intros [Hup Hc]. unfold_handler. rewrite Hup.
  destruct (redis_data (redis w) !! cart_key user ≫= live now) as [v|];
    subst; done.
Qed.

Lemma cart_at_with_cart now now' user cart w :
  now' < now + cart_ttl → cart_at now' user (with_cart now user cart w) cart.
Proof.
  intros Hlt. split; [done|]. simpl. rewrite lookup_insert_eq. simpl.
  unfold live. simpl. by rewrite (proj2 (Z.ltb_lt _ _) Hlt).
Qed.

Lemma postCartSync_at now user items w cart :
  cart_at now user w cart →
  run (postCartSync now user items) w =
  (Some (Response 200 (PCart (foldl merge_item cart items))),
   with_cart now user (foldl merge_item cart items) w).
Proof.
  intros H. unfold run, postCartSync, try_catch, bind.
  rewrite (load_cart_at _ _ _ _ H). destruct H as [Hup _].
  unfold redis_setex, reply. by rewrite Hup.
Qed.

End CartRoutes.

Section SyncFacts.

Lemma incoming_qty_ge it items :
  it ∈ items →
  ∃ q, incoming_qty (productId it) items = Some q ∧ quantity it ≤ q.
Proof.
  induction items as [|x xs IH]; [by intros ?%elem_of_nil|].
  intros [Heq|Hin]%elem_of_cons; simpl.
  - subst x. rewrite decide_True by done.
    destruct (incoming_qty (productId it) xs) as [q|]; simpl; eexists; split; eauto; lia.
  - destruct (IH Hin) as (q & -> & Hq).
    destruct (decide (productId x = productId it)); simpl; eexists; split; eauto; lia.
Qed.

Lemma omax_ge_l a b q :
  a = Some q → ∃ q', omax a b = Some q' ∧ q ≤ q'.
Proof. intros ->. destruct b; simpl; eexists; split; eauto; lia. Qed.

Lemma omax_ge_r a b q :
  b = Some q → ∃ q', omax a b = Some q' ∧ q ≤ q'.
Proof. intros ->. destruct a; simpl; eexists; split; eauto; lia. Qed.

Lemma same_product_pids c1 c2 :
  Forall2 same_product c1 c2 → pids c1 = pids c2.
Proof.
  unfold pids. induction 1 as [|a b l1 l2 Hab _ IH]; simpl; [done|].
  destruct Hab as [Hab _]. f_equal; [exact Hab | exact IH].
Qed.

Lemma merge_item_shape cart it :
  (∃ kept, merge_item cart it = kept ∧ Forall2 same_product cart kept
           ∧ productId it ∈ pids cart)
  ∨ (merge_item cart it = cart ++ [it] ∧ productId it ∉ pids cart).
Proof.
  rewrite merge_item_update.
  destruct (update_first _ (productId it) cart) as [cart'|] eqn:E; simpl.
  - left. exists cart'. split; [done|]. split; [by eapply update_first_same|].
    destruct (decide (productId it ∈ pids cart)) as [|Hn]; [done|].
    apply qty_of_None in Hn.
    apply (update_first_None (λ q, Z.max q (quantity it))) in Hn. congruence.
  - right. split; [done|]. by apply update_first_None, qty_of_None in E.
Qed.

(** The stored items keep their place and everything but their
    quantity; the items that follow them all carry product ids the
    stored cart did not have. *)
Lemma merge_items_shape items cart :
  ∃ kept added,
    foldl merge_item cart items = kept ++ added
    ∧ Forall2 same_product cart kept
    ∧ Forall (λ a, productId a ∉ pids cart) added.
Proof.
  revert cart. induction items as [|it items IH]; intros cart; simpl.
  - exists cart, []. rewrite app_nil_r. repeat split; [reflexivity | done].
  - destruct (IH (merge_item cart it)) as (kept & added & Heq & Hk & Ha).
    destruct (merge_item_shape cart it) as [(k0 & Hm & Hsame & _)|[Hm Hnin]].
    + rewrite Hm in *. exists kept, added. split; [done|]. split.
      * by etrans.
      * by rewrite (same_product_pids _ _ Hsame).
    + rewrite Hm in *.
      apply Forall2_app_inv_l in Hk as (k1 & k2 & Hk1 & Hk2 & ->).
      exists k1, (k2 ++ added). split; [by rewrite Heq, <- (assoc_L (++))|].
      split; [done|]. apply Forall_app. split.
      * apply Forall2_cons_inv_l in Hk2 as (x & ? & [Hx _] & ->%Forall2_nil_inv_l & ->).
        repeat constructor. by rewrite <- Hx.
      * eapply Forall_impl; [done|]. simpl. intros a Hna Hin. apply Hna.
        unfold pids. rewrite fmap_app. apply elem_of_app. by left.
Qed.

End SyncFacts.

(** * POST /cart/sync *)

Section SyncCart.

(** C7.  SyncCart is monotonic.  Whatever cart is stored for the user and
    whatever item list the request carries, the route answers 200 and
    stores a cart in which, for every product id, the quantity is the
    maximum of the quantity stored before and the quantities the request
    carries for that id (an absent side not counting); so it is at least
    the stored quantity and at least every incoming quantity.  The stored
    items keep their order and all fields but the quantity, and the items
    whose product id the cart did not have follow them. *)
Theorem sync_cart_monotonic (now : Z) (user : claims) (items : list item)
    (w : World) (cart : list item) :
  cart_at now user w cart →
  ∃ cart',
    run (postCartSync now user items) w =
      (Some (Response 200 (PCart cart')), with_cart now user cart' w)
    ∧ (∀ p, qty_of p cart' = omax (qty_of p cart) (incoming_qty p items))
    ∧ (∀ p q, qty_of p cart = Some q → ∃ q', qty_of p cart' = Some q' ∧ q ≤ q')
    ∧ (∀ it, it ∈ items →
         ∃ q', qty_of (productId it) cart' = Some q' ∧ quantity it ≤ q')
    ∧ ∃ kept added,
        cart' = kept ++ added
        ∧ Forall2 same_product cart kept
        ∧ Forall (λ a, productId a ∉ pids cart) added.
Proof.
  intros Hcart. exists (foldl merge_item cart items).
  split; [by apply postCartSync_at|].
  split; [intros p; apply merge_items_qty|].
  split; [|split].
  - intros p q Hq. rewrite merge_items_qty. by apply omax_ge_l.
  - intros it Hin. rewrite merge_items_qty.
    destruct (incoming_qty_ge it items Hin) as (q & Hq & Hle).
    destruct (omax_ge_r (qty_of (productId it) cart) _ q Hq) as (q' & Hq' & Hle').
    exists q'. split; [done | lia].
  - apply merge_items_shape.
Qed.

Lemma sync_cart_monotonic_witness :
  let user := Claims "7" "user" 2000000000 in
  let w := MkWorld (MkRedis true
             {[ "cart:7" := Entry (VCart [Item 1 "pen" 3 "pen.png" 5;
                                          Item 2 "ink" 9 "ink.png" 1]) 100 ]}) [] in
  let items := [Item 2 "ink" 9 "ink.png" 4; Item 1 "pen" 3 "pen.png" 2;
                Item 3 "pad" 7 "pad.png" 6] in
  ∃ cart',
    run (postCartSync 10 user items) w =
      (Some (Response 200 (PCart cart')), with_cart 10 user cart' w)
    ∧ qty_of 1 cart' = Some 5 ∧ qty_of 2 cart' = Some 4 ∧ qty_of 3 cart' = Some 6.
Proof.
  intros user w items.
  destruct (sync_cart_monotonic 10 user items w
              [Item 1 "pen" 3 "pen.png" 5; Item 2 "ink" 9 "ink.png" 1])
    as (cart' & Hrun & Hq & _).
  - split; [reflexivity|]. vm_compute. reflexivity.
  - exists cart'. split; [exact Hrun|].
    rewrite !Hq. vm_compute. auto.
Defined.

End SyncCart.

(** * POST /cart/add on a product the catalogue does not have *)

Section AddItemFailure.

Lemma list_find_pid_None p cart :
  list_find (has_pid p) cart = None ↔ p ∉ pids cart.
Proof. rewrite <- qty_of_None. unfold qty_of. by rewrite fmap_None. Qed.

(** C10.  When the product id is not in the stored cart and the product
    service answers the lookup with a non-success status, the route
    answers 404 "Product not found" and the cache is left exactly as it
    was: same entries, same expiry times.  The lookup is the only request
    sent. *)
Theorem add_item_not_found_is_atomic (env : Env) (now : Z) (user : claims)
    (pid qty : Z) (w : World) (cart : list item) (st : Z) (bd : option product) :
  cart_at now user w cart →
  pid ∉ pids cart →
  product_service env pid = Http st bd →
  ok st = false →
  ∃ w',
    run (postCartAdd env now user pid qty) w =
      (Some (Response 404 (PError "Product not found")), w')
    ∧ redis w' = redis w
    ∧ sent w' = sent w ++ [GetProduct pid].
Proof.
  intros Hcart Hnew Hsvc Hok. exists (having_sent (GetProduct pid) w).
  split; [|done].
  unfold run, postCartAdd, try_catch, bind.
  rewrite (load_cart_at _ _ _ _ Hcart).
  apply list_find_pid_None in Hnew. rewrite Hnew.
  unfold fetch. rewrite Hsvc. simpl. by rewrite Hok.
Qed.

Lemma add_item_not_found_is_atomic_witness :
  let env := MkEnv (λ _, None) (λ _, Http 404 None) (λ _, NetworkError)
                   (λ _, NetworkError) (λ _, NetworkError) NetworkError in
  let user := Claims "7" "user" 2000000000 in
  let w := MkWorld (MkRedis true
             {[ "cart:7" := Entry (VCart [Item 1 "pen" 3 "pen.png" 5]) 100 ]}) [] in
  ∃ w',
    run (postCartAdd env 10 user 2 1) w =
      (Some (Response 404 (PError "Product not found")), w')
    ∧ redis w' = redis w
    ∧ sent w' = sent w ++ [GetProduct 2].
Proof.
  intros env user w.
  apply (add_item_not_found_is_atomic env 10 user 2 1 w
           [Item 1 "pen" 3 "pen.png" 5] 404 None).
  - split; [reflexivity|]. vm_compute. reflexivity.
  - vm_compute. intros H. inversion H as [|? ? ? H']; subst. inversion H'.
  - reflexivity.
  - reflexivity.
Defined.

End AddItemFailure.

(** * POST /orders *)

Section Checkout.


(** The total is rounded as the doubles of the route are: a product past
    2^53 loses its last unit, and three times the double written 0.1 is
    the double written 0.30000000000000004. *)
Example cart_total_rounds :
  cart_total [Item 1 "gold" 94906267 "" 94906267] = 9007199515875288
  ∧ cart_total [Item 2 "gum" (Double.decimal 1 1) "" 3]
    = Double.decimal 30000000000000004 17
  ∧ cart_total [Item 3 "lamp" (Double.decimal 19999 2) "" 2] = Double.decimal 39998 2
  ∧ cart_total [Item 1 "pen" 10 "" 2] = 20.
Proof. vm_compute. done. Qed.

(** What the route does up to the answer of the order service. *)
Lemma postOrders_submit (env : Env) (now : Z) (user : claims) (w : World)
    (cart : list item) :
  stored_cart now user w cart →
  let request := OrderRequest (id user) cart (cart_total cart) in
  let w1 := having_sent (PostOrder request) w in
  postOrders env now user w =
  match order_service env request with
  | NetworkError => (Reply (Response 500 (PError "Failed to create order")), w1)
  | Http st bd =>
      if ok st then
        match bd with
        | None => (Reply (Response 500 (PError "Failed to create order")), w1)
        | Some order => after_order env user order w1
        end
      else
        match bd with
        | None => (Reply (Response 500 (PError "Failed to create order")), w1)
        | Some error => (Reply (Response st (PJson error)), w1)
        end
  end.
Proof.
  intros [Hup Hc] request w1.
  unfold postOrders, try_catch at 1, bind at 1, redis_get.
  rewrite Hup, Hc. simpl. unfold bind at 1, ret.
  unfold bind at 1, fetch at 1. fold request.
  destruct (order_service env request) as [|st bd]; [done|]. simpl.
  destruct (ok st); simpl.
  - unfold bind at 1, json_of at 1. simpl. destruct bd as [ord|]; [|done].
    reflexivity.
  - unfold bind at 1, json_of at 1. simpl. destruct bd as [err|]; done.
Qed.

(** The notification step never changes the answer: with the cache
    reachable the cart key is deleted and the route answers 201 with the
    order payload. *)
Lemma after_order_run (env : Env) (user : claims) (order : json) (w1 : World) :
  redis_up (redis w1) = true →
  ∃ w' rest,
    after_order env user order w1 = (Reply (Response 201 (PJson order)), w')
    ∧ redis w' = MkRedis true (delete (cart_key user) (redis_data (redis w1)))
    ∧ sent w' = sent w1 ++ rest.
Proof.
  intros Hup.
  unfold after_order, try_catch at 1, bind at 1, redis_del. rewrite Hup.
  unfold bind at 1, try_catch at 1.
  destruct (get_prop order "id") as [orderId|];
    [destruct (get_prop order "total") as [total|]|].
  - unfold bind at 1, fetch.
    destruct (notification_service env _); simpl;
      eexists _, _; (split; [reflexivity|]); (split; [reflexivity|]); simpl;
      first [reflexivity | by rewrite app_nil_r].
  - simpl. eexists _, []. by rewrite app_nil_r.
  - simpl. eexists _, []. by rewrite app_nil_r.
Qed.

(** C5.  When the order service cannot be reached, or answers with a
    non-success status, the route relays the downstream status and body
    (or, when there is no response or no readable body to relay, answers
    500 "Failed to create order"), and the cache is left exactly as it
    was: the user's cart is still stored.  The order request is the only
    request sent. *)
Theorem checkout_failure_preserves_cart (env : Env) (now : Z) (user : claims)
    (w : World) (cart : list item) :
  stored_cart now user w cart →
  let request := OrderRequest (id user) cart (cart_total cart) in
  (order_service env request = NetworkError
   ∨ ∃ st bd, order_service env request = Http st bd ∧ ok st = false) →
  ∃ r w',
    run (postOrders env now user) w = (Some r, w')
    ∧ r = match order_service env request with
          | Http st (Some error) => Response st (PJson error)
          | _ => Response 500 (PError "Failed to create order")
          end
    ∧ redis w' = redis w
    ∧ stored_cart now user w' cart
    ∧ sent w' = sent w ++ [PostOrder request].
Proof.
  intros Hcart request Hfail.
  unfold run. rewrite (postOrders_submit env now user w cart Hcart). fold request.
  destruct Hfail as [Hf|(st & bd & Hf & Hok)]; rewrite Hf.
  - eexists _, _. split; [done|]. split; [done|]. split; [done|].
    split; [exact Hcart | done].
  - rewrite Hok.
    destruct bd as [err|]; eexists _, _; (split; [done|]); (split; [done|]);
      (split; [done|]); (split; [exact Hcart | done]).
Qed.

Lemma checkout_failure_preserves_cart_witness :
  let env := MkEnv (λ _, None) (λ _, NetworkError)
                   (λ _, Http 409 (Some (JObj [("error", JStr "Out of stock")])))
                   (λ _, NetworkError) (λ _, NetworkError) NetworkError in
  let user := Claims "7" "user" 2000000000 in
  let cart := [Item 1 "pen" 3 "pen.png" 5] in
  let w := MkWorld (MkRedis true {[ "cart:7" := Entry (VCart cart) 100 ]}) [] in
  ∃ w',
    run (postOrders env 10 user) w =
      (Some (Response 409 (PJson (JObj [("error", JStr "Out of stock")]))), w')
    ∧ redis w' = redis w.
Proof.
  intros env user cart w.
  destruct (checkout_failure_preserves_cart env 10 user w cart)
    as (r & w' & Hrun & Hr & Hredis & _).
  - split; [reflexivity|]. vm_compute. reflexivity.
  - right. exists 409, (Some (JObj [("error", JStr "Out of stock")])).
    split; reflexivity.
  - exists w'. split; [|exact Hredis]. rewrite Hrun, Hr. reflexivity.
Defined.

(** C6.  When a cart is stored for the user and the order service
    answers the order request with a success status and an order payload,
    the route answers 201 with that payload, the user's cart key is
    deleted from the cache and nothing else in the cache changes, so a
    later GET /cart returns the empty sequence.  This holds whatever the
    notification service does: its failure is not visible in the
    response. *)
Theorem checkout_success_clears_cart (env : Env) (now : Z) (user : claims)
    (w : World) (cart : list item) (st : Z) (order : json) :
  stored_cart now user w cart →
  order_service env (OrderRequest (id user) cart (cart_total cart))
    = Http st (Some order) →
  ok st = true →
  ∃ w',
    run (postOrders env now user) w = (Some (Response 201 (PJson order)), w')
    ∧ redis w' = MkRedis true (delete (cart_key user) (redis_data (redis w)))
    ∧ ∀ later, run (getCart later user) w' = (Some (Response 200 (PCart [])), w').
Proof.
  intros Hcart Hsvc Hok.
  assert (Hget : ∀ w', redis w' = MkRedis true (delete (cart_key user) (redis_data (redis w))) →
            ∀ later, run (getCart later user) w' = (Some (Response 200 (PCart [])), w')).
  { intros w' Hw' later. apply getCart_at. unfold cart_at. rewrite Hw'. simpl.
    by rewrite lookup_delete_eq. }
  unfold run at 1. rewrite (postOrders_submit env now user w cart Hcart), Hsvc, Hok.
  destruct Hcart as [Hup _].
  destruct (after_order_run env user order
              (having_sent (PostOrder (OrderRequest (id user) cart (cart_total cart))) w) Hup)
    as (w' & rest & -> & Hredis & _).
  exists w'. split; [done|]. split; [done | by apply Hget].
Qed.

Lemma checkout_success_clears_cart_witness :
  let env := MkEnv (λ _, None) (λ _, NetworkError)
                   (λ _, Http 201 (Some (JObj [("id", JNum 42)])))
                   (λ _, NetworkError) (λ _, NetworkError) NetworkError in
  let user := Claims "7" "user" 2000000000 in
  let cart := [Item 1 "pen" 10 "pen.png" 2] in
  let w := MkWorld (MkRedis true {[ "cart:7" := Entry (VCart cart) 100 ]}) [] in
  ∃ w',
    run (postOrders env 10 user) w =
      (Some (Response 201 (PJson (JObj [("id", JNum 42)]))), w')
    ∧ run (getCart 11 user) w' = (Some (Response 200 (PCart [])), w').
Proof.
  intros env user cart w.
  destruct (checkout_success_clears_cart env 10 user w cart 201
              (JObj [("id", JNum 42)]))
    as (w' & Hrun & _ & Hget).
  - split; [reflexivity|]. vm_compute. reflexivity.
  - reflexivity.
  - reflexivity.
  - exists w'. split; [exact Hrun | apply Hget].
Defined.

(** C2, at the input on which the route departs from it.  POST /cart/sync
    with an empty item list on a fresh cache stores an empty cart; GET
    /cart then returns the empty sequence, yet POST /orders does not
    answer 400 "Cart is empty": it submits an order with no items and
    total 0 to the order service. *)
Theorem checkout_of_empty_stored_cart (env : Env) (now : Z) (user : claims) :
  let w0 := MkWorld (MkRedis true ∅) [] in
  let w1 := (run (postCartSync now user []) w0).2 in
  (run (getCart now user) w1).1 = Some (Response 200 (PCart []))
  ∧ (run (postOrders env now user) w1).1
      ≠ Some (Response 400 (PError "Cart is empty"))
  ∧ ∃ rest, sent (run (postOrders env now user) w1).2
            = PostOrder (OrderRequest (id user) [] 0) :: rest.
Proof.
  intros w0 w1.
  assert (Hempty : cart_at now user w0 []) by (by split).
  assert (Hw1 : w1 = with_cart now user [] w0).
  { unfold w1. by rewrite (postCartSync_at now user [] w0 [] Hempty). }
  clearbody w1.
  assert (Hlt : now < now + cart_ttl) by (unfold cart_ttl; lia).
  assert (Hst : stored_cart now user w1 []).
  { rewrite Hw1. split; [done|]. simpl. rewrite lookup_insert_eq. simpl.
    unfold live. simpl. by rewrite (proj2 (Z.ltb_lt _ _) Hlt). }
  split.
  { rewrite Hw1, (getCart_at now user _ [] (cart_at_with_cart now now user [] w0 Hlt)).
    done. }
  unfold run. rewrite (postOrders_submit env now user w1 [] Hst).
  change (cart_total []) with (Double.of_Z 0).
  assert (Hsent : sent w1 = []) by (by rewrite Hw1).
  destruct (order_service env (OrderRequest (id user) [] 0)) as [|st bd].
  { simpl. rewrite Hsent. split; [done | by eexists]. }
  destruct (ok st) eqn:Hok.
  2:{ destruct bd as [err|]; simpl; rewrite Hsent; (split; [|by eexists]); done. }
  destruct bd as [ord|]; [|simpl; rewrite Hsent; split; [done | by eexists]].
  destruct Hst as [Hup _].
  destruct (after_order_run env user ord
              (having_sent (PostOrder (OrderRequest (id user) [] 0)) w1) Hup)
    as (w' & rest & -> & _ & Hs).
  simpl. rewrite Hs. simpl. rewrite Hsent. split; [done | by eexists].
Qed.

End Checkout.

(** * Client-supplied items in the cart and in the order *)

Section ClientPrices.










(** The order that follows such a sync: 3 * 5 for the pen the cart held
    and 0.5 * 3 for the item at the price the client sent. *)
Example client_price_in_total :
  let env := MkEnv (λ _, None) (λ _, NetworkError) (λ _, NetworkError)
                   (λ _, NetworkError) (λ _, NetworkError) NetworkError in
  let user := Claims "7" "user" 2000000000 in
  let w := MkWorld (MkRedis true
             {[ "cart:7" := Entry (VCart [Item 1 "pen" 3 "pen.png" 5]) 100 ]}) [] in
  let it := Item 9 "yacht" (Double.decimal 5 1) "yacht.png" 3 in
  sent (run (postOrders env 11 user) (run (postCartSync 10 user [it]) w).2).2
  = [PostOrder (OrderRequest "7" [Item 1 "pen" 3 "pen.png" 5; it]
                             (Double.decimal 165 1))].
Proof. vm_compute. reflexivity. Qed.

End ClientPrices.

(** * POST /cart/add, repeated *)

Section AddItem.

Lemma cart_at_redis now user w1 w2 cart :
  redis w1 = redis w2 → cart_at now user w1 cart → cart_at now user w2 cart.
Proof. unfold cart_at. by intros ->. Qed.

(** The route stores and returns [added_cart] when that is defined, and
    otherwise answers with an error status and leaves the cache alone. *)
Lemma postCartAdd_run (env : Env) (now : Z) (user : claims) (pid qty : Z)
    (w : World) (cart : list item) :
  cart_at now user w cart →
  ∃ r w',
    run (postCartAdd env now user pid qty) w = (r, w') ∧
    match added_cart env cart pid qty with
    | Some cart' =>
        r = Some (Response 200 (PCart cart'))
        ∧ redis w' = redis (with_cart now user cart' w)
    | None => ¬ successful r ∧ redis w' = redis w
    end.
Proof.
  intros Hcart. unfold run, postCartAdd, try_catch, bind.
  rewrite (load_cart_at _ _ _ _ Hcart). destruct Hcart as [Hup _].
  unfold added_cart.
  rewrite <- (find_update (λ q, q + qty) pid cart).
  destruct (list_find (has_pid pid) cart) as [[i e]|].
  - unfold ret, redis_setex, reply. rewrite Hup. eexists _, _. done.
  - unfold fetch. destruct (product_service env pid) as [|st bd].
    + eexists _, _. split; [done|]. split; [|done]. by intros [b [=]].
    + simpl. destruct (ok st); simpl.
      * unfold json_of. simpl. destruct bd as [prod|].
        -- unfold ret, redis_setex, reply. simpl. rewrite Hup. eexists _, _. done.
        -- unfold throw. eexists _, _. split; [done|]. split; [|done]. by intros [b [=]].
      * unfold reply.
        destruct bd; eexists _, _; (split; [done|]); (split; [|done]); by intros [b [=]].
Qed.

Lemma added_cart_qty env cart pid qty cart' p :
  added_cart env cart pid qty = Some cart' →
  qty_of p cart' =
  if decide (pid = p) then Some (default 0 (qty_of pid cart) + qty)
  else qty_of p cart.
Proof.
  unfold added_cart.
  destruct (update_first _ pid cart) as [c'|] eqn:E.
  - intros [= <-]. rewrite (update_first_qty _ _ _ _ p E).
    destruct (decide (pid = p)); [|done].
    destruct (qty_of pid cart) as [q|] eqn:Q; [done|].
    apply (update_first_None (λ q, q + qty)) in Q. congruence.
  - apply update_first_None in E.
    destruct (product_service env pid) as [|st [prod|]]; [done| |done].
    destruct (ok st); [|done]. intros [= <-].
    rewrite qty_of_app, qty_of_cons, qty_of_nil. simpl.
    destruct (decide (pid = p)) as [<-|Hne].
    + by rewrite E.
    + by destruct (qty_of p cart).
Qed.

Lemma added_cart_NoDup env cart pid qty cart' :
  added_cart env cart pid qty = Some cart' →
  NoDup (pids cart) → NoDup (pids cart').
Proof.
  unfold added_cart.
  destruct (update_first _ pid cart) as [c'|] eqn:E.
  - intros [= <-]. by rewrite (update_first_pids _ _ _ _ E).
  - apply update_first_None, qty_of_None in E.
    destruct (product_service env pid) as [|st [prod|]]; [done| |done].
    destruct (ok st); [|done]. intros [= <-] Hnd.
    unfold pids. rewrite fmap_app. simpl. apply NoDup_app. split; [done|].
    split; [|apply NoDup_singleton].
    intros x Hx ->%list_elem_of_singleton. done.
Qed.





(** Syncing keeps a cart free of repeated product ids, as adding does:
    every cart the routes store is unique by product id. *)
Lemma merge_items_NoDup items :
  ∀ cart, NoDup (pids cart) → NoDup (pids (foldl merge_item cart items)).
Proof.
  induction items as [|it items IH]; intros cart Hnd; simpl; [done|].
  apply IH.
  destruct (merge_item_shape cart it) as [(k & -> & Hsame & _)|[-> Hnew]].
  - by rewrite <- (same_product_pids _ _ Hsame).
  - unfold pids. rewrite fmap_app. simpl. apply NoDup_app. split; [done|].
    split; [|apply NoDup_singleton].
    intros x Hx ->%list_elem_of_singleton. done.
Qed.



(** The lifetime bound matters: a call that arrives after the cart has
    expired starts a new cart. *)
Example add_after_expiry :
  let env := MkEnv (λ _, None) (λ _, Http 200 (Some (Product "pen" 3 "pen.png")))
                   (λ _, NetworkError) (λ _, NetworkError) (λ _, NetworkError)
                   NetworkError in
  let user := Claims "7" "user" 2000000000 in
  let calls := [AddCall 0 1 2; AddCall (cart_ttl + 1) 1 3] in
  (run (getCart (cart_ttl + 2) user)
       (add_items env user calls (MkWorld (MkRedis true ∅) [])).2).1
  = Some (Response 200 (PCart [Item 1 "pen" 3 "pen.png" 3])).
Proof. vm_compute. reflexivity. Qed.

End AddItem.

(** * The authentication middleware *)

Section AuthGate.

Lemma authenticateToken_revoked (env : Env) (now : Z) (authHeader : option string)
    (token : string) (marker : rval) (w : World) :
  bearer_token authHeader = Some token →
  redis_up (redis w) = true →
  redis_data (redis w) !! blacklist_key token ≫= live now = Some marker →
  rval_truthy marker = true →
  authenticateToken env now authHeader w
    = (Reply (Response 401 (PError "Token has been revoked")), w).
Proof.
  intros Htok Hup Hm Ht. unfold authenticateToken. rewrite Htok.
  unfold try_catch, bind, redis_get. rewrite Hup, Hm. simpl. by rewrite Ht.
Qed.

Lemma authenticateToken_valid (env : Env) (now : Z) (authHeader : option string)
    (token : string) (decoded : claims) (w : World) :
  bearer_token authHeader = Some token →
  redis_up (redis w) = true →
  redis_data (redis w) !! blacklist_key token ≫= live now = None →
  jwt_verify env token = Some decoded →
  authenticateToken env now authHeader w = (Val decoded, w).
Proof.
  intros Htok Hup Hm Hv. unfold authenticateToken. rewrite Htok.
  unfold try_catch, bind, redis_get. rewrite Hup, Hm. simpl. by rewrite Hv.
Qed.

(** C4.  For a request that carries a token: if the revocation store
    holds a live marker for the token, the middleware answers 401 "Token
    has been revoked" without looking at the signature (the result does
    not depend on [jwt_verify]); if the store holds none and the token
    verifies, the middleware passes the decoded payload on as [req.user]
    and sends nothing itself. *)
Theorem auth_gate_revocation (env : Env) (now : Z) (authHeader : option string)
    (token : string) (w : World) :
  bearer_token authHeader = Some token →
  redis_up (redis w) = true →
  (∀ marker,
     redis_data (redis w) !! blacklist_key token ≫= live now = Some marker →
     rval_truthy marker = true →
     authenticateToken env now authHeader w
       = (Reply (Response 401 (PError "Token has been revoked")), w))
  ∧ (∀ decoded,
       redis_data (redis w) !! blacklist_key token ≫= live now = None →
       jwt_verify env token = Some decoded →
       authenticateToken env now authHeader w = (Val decoded, w)).
Proof.
  intros Htok Hup. split.
  - intros marker. by apply authenticateToken_revoked.
  - intros decoded. by apply authenticateToken_valid.
Qed.

Lemma auth_gate_revocation_witness :
  let good := Claims "7" "user" 2000000000 in
  let env := MkEnv (λ _, Some good) (λ _, NetworkError) (λ _, NetworkError)
                   (λ _, NetworkError) (λ _, NetworkError) NetworkError in
  let revoked := MkWorld (MkRedis true
                   {[ "blacklist:abc" := Entry (VStr "1" (Some (JNum 1))) 100 ]}) [] in
  let clean := MkWorld (MkRedis true ∅) [] in
  authenticateToken env 10 (Some "Bearer abc") revoked
    = (Reply (Response 401 (PError "Token has been revoked")), revoked)
  ∧ authenticateToken env 10 (Some "Bearer abc") clean = (Val good, clean).
Proof.
  intros good env revoked clean. split.
  - apply (proj1 (auth_gate_revocation env 10 (Some "Bearer abc") "abc" revoked
                    eq_refl eq_refl) (VStr "1" (Some (JNum 1)))).
    + vm_compute. reflexivity.
    + reflexivity.
  - apply (proj2 (auth_gate_revocation env 10 (Some "Bearer abc") "abc" clean
                    eq_refl eq_refl) good).
    + vm_compute. reflexivity.
    + reflexivity.
Defined.

(** A token that has passed the middleware and is logged out before it
    expires is revoked from then on, until it expires. *)
Lemma logout_revokes (env : Env) (now later : Z) (authHeader : option string)
    (token : string) (user : claims) (w : World) :
  bearer_token authHeader = Some token →
  redis_up (redis w) = true →
  now < exp user → later < exp user →
  ∃ w',
    run (postLogout now token user) w
      = (Some (Response 200 (PMessage "Logged out successfully")), w')
    ∧ authenticateToken env later authHeader w'
      = (Reply (Response 401 (PError "Token has been revoked")), w').
Proof.
  intros Htok Hup Hnow Hlater.
  unfold run, postLogout, bind, redis_setex, reply.
  rewrite (proj2 (Z.ltb_lt 0 (exp user - now))) by lia. rewrite Hup.
  eexists. split; [reflexivity|].
  apply (authenticateToken_revoked env later authHeader token (VStr "1" (Some (JNum 1))));
    [done | done | | done].
  simpl. rewrite lookup_insert_eq. simpl. unfold live. simpl.
  by rewrite (proj2 (Z.ltb_lt later (now + (exp user - now)))) by lia.
Qed.

(** When the revocation lookup itself throws, the catch block answers
    403 whatever the token. *)
Example auth_gate_cache_down (env : Env) (now : Z) (data : gmap string entry) :
  authenticateToken env now (Some "Bearer abc") (MkWorld (MkRedis false data) [])
  = (Reply (Response 403 (PError "Invalid or expired token")),
     MkWorld (MkRedis false data) []).
Proof. reflexivity. Qed.

End AuthGate.

(** * GET /health *)

Section HealthCheck.

Lemma serviceCheck_run (env : Env) (h : health) (s : service) (w : World) :
  serviceCheck env h s w =
  (Val (match health_probe env s with
        | NetworkError =>
            with_status "degraded" (with_service (service_name s) "unreachable" h)
        | Http st _ =>
            with_service (service_name s)
              (if ok st then "healthy" else "unhealthy") h
        end),
   having_sent (GetHealth s) w).
Proof.
  unfold serviceCheck, try_catch, bind, fetch.
  destruct (health_probe env s); done.
Qed.

Global Instance service_name_inj : Inj (=) (=) service_name.
Proof. intros [] [] H; simpl in H; congruence. Qed.

(** The probes degrade the status exactly when one of them throws; a
    probe that is answered, with whatever status, leaves it alone. *)
Lemma serviceChecks_run (env : Env) (ss : list service) :
  ∀ h w, ∃ h' w',
    serviceChecks env h ss w = (Val h', w')
    ∧ redis w' = redis w
    ∧ health_cache h' = health_cache h
    ∧ (health_status h' = "healthy" ↔
       health_status h = "healthy" ∧ ∀ s, s ∈ ss → health_probe env s ≠ NetworkError)
    ∧ ∀ s, health_services h' !! service_name s =
           if decide (s ∈ ss) then Some (service_label env s)
           else health_services h !! service_name s.
Proof.
  induction ss as [|s ss IH]; intros h w; cbn [serviceChecks].
  - exists h, w. unfold ret. split; [done|]. split; [done|]. split; [done|].
    split.
    + split; [intros ?; split; [done | by intros ? ?%elem_of_nil] | by intros [? _]].
    + intros s. destruct (decide (s ∈ [])) as [?%elem_of_nil|]; done.
  - unfold bind. rewrite serviceCheck_run.
    set (h1 := match health_probe env s with NetworkError => _ | Http _ _ => _ end).
    assert (Hh1 : ∀ s', health_services h1 !! service_name s' =
                        if decide (s' = s) then Some (service_label env s)
                        else health_services h !! service_name s').
    { intros s'. unfold h1, service_label.
      destruct (decide (s' = s)) as [->|Hne].
      - destruct (health_probe env s); simpl; by rewrite lookup_insert_eq.
      - destruct (health_probe env s); simpl; apply lookup_insert_ne;
          intros ?%(inj service_name); congruence. }
    destruct (IH h1 (having_sent (GetHealth s) w))
      as (h' & w' & -> & Hredis & Hcache & Hstatus & Hsvc).
    exists h', w'. split; [done|]. split; [done|].
    split; [rewrite Hcache; unfold h1; by destruct (health_probe env s)|].
    split.
    + rewrite Hstatus. unfold h1. split.
      * intros [Hh Hall]. destruct (health_probe env s) eqn:Hp; [done|].
        split; [done|]. intros s' [->|Hin]%elem_of_cons; [congruence | by apply Hall].
      * intros [Hh Hall].
        assert (health_probe env s ≠ NetworkError) as Hs by (apply Hall; left).
        destruct (health_probe env s); [done|].
        split; [done|]. intros s' Hin. apply Hall. by right.
    + intros s'. rewrite Hsvc, Hh1.
      destruct (decide (s' ∈ ss)) as [Hin|Hin].
      * rewrite decide_True; [done | by right].
      * destruct (decide (s' = s)) as [->|Hne].
        -- rewrite decide_True; [done | left].
        -- rewrite decide_False; [done|].
           apply not_elem_of_cons. done.
Qed.

Lemma all_services (s : service) : s ∈ services.
Proof. unfold services. destruct s; set_solver. Qed.

Lemma checkRedis_run (h : health) (w : World) :
  ∃ h', checkRedis h w = (Val h', w)
        ∧ ((redis_up (redis w) = true ∧ health_status h' = health_status h)
           ∨ (redis_up (redis w) = false ∧ health_status h' = "degraded")).
Proof.
  unfold checkRedis, try_catch, bind, redis_ping, ret.
  destruct (redis_up (redis w)); eexists; (split; [done|]); [by left | by right].
Qed.

Lemma checkDatabase_run (env : Env) (h : health) (w : World) :
  ∃ d w', checkDatabase env h w = (Val (with_database d h), w').
Proof.
  unfold checkDatabase, try_catch, bind, fetch, json_of, ret, throw.
  destruct (database_probe env) as [|st [authData|]]; simpl; [by eexists _, _| |by eexists _, _].
  destruct (get_prop authData "database") as [[d|]|]; by eexists _, _.
Qed.

(** The composite status is never anything but "healthy" or "degraded". *)
Lemma serviceChecks_status (env : Env) (ss : list service) :
  ∀ h w h' w',
    serviceChecks env h ss w = (Val h', w') →
    health_status h' = "degraded" ∨ health_status h' = health_status h.
Proof.
  induction ss as [|s ss IH]; intros h w h' w'; simpl.
  - intros [= -> _]. by right.
  - unfold bind. rewrite serviceCheck_run. intros Hrun.
    destruct (IH _ _ _ _ Hrun) as [?|Hk]; [by left|].
    rewrite Hk. destruct (health_probe env s); [by left | by right].
Qed.

(** GET /health always answers; it answers "healthy" with 200 exactly
    when the cache ping succeeds and no probe throws, and "degraded" with
    503 otherwise.  The status a probe is answered with decides the label
    of the service but not the composite status. *)
Lemma getHealth_run (env : Env) (w : World) :
  ∃ h w',
    run (getHealth env) w =
      (Some (Response (if bool_decide (health_status h = "healthy") then 200 else 503)
                      (PHealth h)), w')
    ∧ (health_status h = "healthy" ∨ health_status h = "degraded")
    ∧ (health_status h = "healthy" ↔
       redis_up (redis w) = true ∧ ∀ s, health_probe env s ≠ NetworkError)
    ∧ ∀ s, health_services h !! service_name s = Some (service_label env s).
Proof.
  destruct (checkRedis_run (Health "healthy" "" ∅ JNull) w) as (h0 & Hrun0 & Hs0).
  destruct (serviceChecks_run env services h0 w)
    as (h1 & w1 & Hrun1 & _ & _ & Hstatus & Hsvc).
  destruct (checkDatabase_run env h1 w1) as (d & w2 & Hrun2).
  exists (with_database d h1), w2.
  split; [|split; [|split]].
  - unfold run, getHealth, bind. by rewrite Hrun0, Hrun1, Hrun2.
  - simpl. destruct (serviceChecks_status env services h0 w h1 w1 Hrun1) as [|Hk];
      [by right|].
    rewrite Hk. destruct Hs0 as [[_ ->]|[_ ->]]; [by left | by right].
  - simpl. rewrite Hstatus. split.
    + intros [Hh Hall]. split; [|intros s; apply Hall, all_services].
      destruct Hs0 as [[Hup _]|[_ Hd]]; [done|]. by rewrite Hd in Hh.
    + intros [Hup Hall]. split; [|intros s _; apply Hall].
      destruct Hs0 as [[_ Hh]|[Hdown _]]; [done | congruence].
  - intros s. simpl. rewrite Hsvc. by rewrite decide_True by apply all_services.
Qed.

(** C1, at the inputs on which the route departs from it.  With the
    cache reachable and every probe answered, the composite status is
    "healthy" and the HTTP status 200 even when a service answers its
    probe with a non-success status and is itself reported "unhealthy". *)
Theorem health_unhealthy_service_not_degraded (env : Env) (w : World)
    (s : service) (st : Z) (bd : option json) :
  redis_up (redis w) = true →
  (∀ s', health_probe env s' ≠ NetworkError) →
  health_probe env s = Http st bd →
  ok st = false →
  ∃ h w',
    run (getHealth env) w = (Some (Response 200 (PHealth h)), w')
    ∧ health_status h = "healthy"
    ∧ health_services h !! service_name s = Some "unhealthy".
Proof.
  intros Hup Hall Hs Hok.
  destruct (getHealth_run env w) as (h & w' & Hrun & _ & Hstatus & Hsvc).
  assert (Hh : health_status h = "healthy") by (by apply Hstatus).
  exists h, w'. rewrite Hrun, bool_decide_eq_true_2 by done.
  split; [done|]. split; [done|].
  rewrite Hsvc. unfold service_label. by rewrite Hs, Hok.
Qed.

Lemma health_unhealthy_service_not_degraded_witness :
  let env := MkEnv (λ _, None) (λ _, NetworkError) (λ _, NetworkError)
                   (λ _, NetworkError)
                   (λ s, match s with
                         | svc_product => Http 500 None
                         | _ => Http 200 (Some (JObj [("status", JStr "healthy")]))
                         end)
                   NetworkError in
  let w := MkWorld (MkRedis true ∅) [] in
  ∃ h w',
    run (getHealth env) w = (Some (Response 200 (PHealth h)), w')
    ∧ health_status h = "healthy"
    ∧ health_services h !! "product" = Some "unhealthy".
Proof.
  intros env w.
  apply (health_unhealthy_service_not_degraded env w svc_product 500 None).
  - reflexivity.
  - intros []; discriminate.
  - reflexivity.
  - reflexivity.
Defined.

End HealthCheck.

(** * Rate limiting *)

Section RateLimiting.

(** One request through one limiter, seen from client [ip], while the
    client's window lasts: the counter of [ip] never decreases and never
    resets; a request of [ip] that is not skipped increments it and is
    rejected exactly when the new count exceeds the maximum. *)
Lemma rateLimit_step (o : RateLimit.options) (T now : Z) (ip ip' path : string)
    (store : gmap string RateLimit.window) :
  window_outlasts T ip store →
  T - RateLimit.windowMs o ≤ now < T →
  let (v, store') := RateLimit.rateLimit o now ip' path store in
  window_outlasts T ip store'
  ∧ 0 ≤ counted ip store ≤ counted ip store'
  ∧ (ip' = ip → RateLimit.skip o path = false →
     counted ip store' = counted ip store + 1
     ∧ v = if RateLimit.max o <? counted ip store'
           then Some (Response 429 (PError (RateLimit.message o))) else None).
Proof.
  intros Hw Hnow. unfold RateLimit.rateLimit.
  assert (H0 : 0 ≤ counted ip store).
  { unfold counted. destruct (store !! ip) as [w|] eqn:E; simpl; [|done].
    by apply Hw. }
  destruct (RateLimit.skip o path) eqn:Hskip.
  { split; [done|]. split; [lia|]. by intros _ [=]. }
  set (w' := RateLimit.increment o now (store !! ip')).
  assert (Hres : (if RateLimit.max o <? RateLimit.hits w'
                  then (Some (Response 429 (PError (RateLimit.message o))),
                        <[ip' := w']> store)
                  else (None, <[ip' := w']> store))
                 = (if RateLimit.max o <? RateLimit.hits w'
                    then Some (Response 429 (PError (RateLimit.message o)))
                    else None, <[ip' := w']> store))
    by (by destruct (_ <? _)).
  rewrite Hres. clear Hres.
  destruct (decide (ip' = ip)) as [->|Hne].
  - assert (Hw' : RateLimit.hits w' = counted ip store + 1
                  ∧ T ≤ RateLimit.resetTime w').
    { unfold w', counted, RateLimit.increment.
      destruct (store !! ip) as [w|] eqn:E; simpl.
      - destruct (Hw w E) as [Hreset _].
        rewrite (proj2 (Z.ltb_lt now (RateLimit.resetTime w))) by lia. done.
      - split; lia. }
    destruct Hw' as [Hhits Hreset].
    assert (Hc : counted ip (<[ip := w']> store) = counted ip store + 1).
    { unfold counted at 1. by rewrite lookup_insert_eq. }
    split; [|split].
    + intros w. rewrite lookup_insert_eq. intros [= <-]. split; [done | lia].
    + lia.
    + intros _ _. split; [done|]. by rewrite Hc, <- Hhits.
  - assert (Hc : counted ip (<[ip' := w']> store) = counted ip store).
    { unfold counted. by rewrite lookup_insert_ne. }
    split; [|split].
    + intros w. rewrite lookup_insert_ne by done. apply Hw.
    + lia.
    + done.
Qed.

Lemma limiters_step (T now : Z) (ip ip' path : string) (s : Limits) (n : nat) :
  window_outlasts T ip (general_store s) →
  window_outlasts T ip (auth_store s) →
  T - 15 * 60 * 1000 ≤ now < T →
  login_progress ip s n →
  let (v, s') := limiters now ip' path s in
  window_outlasts T ip (general_store s')
  ∧ window_outlasts T ip (auth_store s')
  ∧ login_progress ip s' n
  ∧ (ip' = ip → path = "/auth/login" →
     login_progress ip s' (S n)
     ∧ ((10 ≤ n)%nat → ∃ resp, v = Some resp ∧ status resp = 429)).
Proof.
  intros Hg Ha Hnow Hp. unfold limiters, login_progress in *.
  pose proof (rateLimit_step generalLimiter T now ip ip' path _ Hg Hnow) as Hgs.
  destruct (RateLimit.rateLimit generalLimiter now ip' path (general_store s))
    as [vg g'] eqn:Eg.
  destruct Hgs as (Hg' & Hgc & Hgl).
  pose proof (rateLimit_step authLimiter T now ip ip' path _ Ha Hnow) as Has.
  destruct (RateLimit.rateLimit authLimiter now ip' path (auth_store s))
    as [va a'] eqn:Ea.
  destruct Has as (Ha' & Hac & Hal).
  destruct vg as [rg|].
  - (* rejected by the general limiter *)
    simpl. split; [done|]. split; [done|]. split.
    { destruct Hp as [Hp|Hp]; [left; lia | by right]. }
    intros -> ->. destruct (Hgl eq_refl eq_refl) as [Hc Hv].
    change (RateLimit.max generalLimiter) with 100 in Hv.
    destruct (100 <? counted ip g') eqn:Hlt; [|done].
    apply Z.ltb_lt in Hlt. injection Hv as ->.
    split; [left; lia|]. intros _. by eexists.
  - destruct (mounted_at "/auth" path) eqn:Hm.
    + simpl. split; [done|]. split; [done|]. split.
      { destruct Hp as [Hp|Hp]; [left; lia | right; lia]. }
      intros -> ->. destruct (Hgl eq_refl eq_refl) as [Hc Hv].
      destruct (Hal eq_refl eq_refl) as [Hca Hva].
      change (RateLimit.max generalLimiter) with 100 in Hv.
      change (RateLimit.max authLimiter) with 10 in Hva.
      destruct (100 <? counted ip g') eqn:Hlt; [done|].
      apply Z.ltb_ge in Hlt.
      assert (Hn : Z.of_nat n ≤ counted ip (auth_store s))
        by (destruct Hp as [Hp|Hp]; [lia | done]).
      split; [right; lia|]. intros Hten.
      rewrite (proj2 (Z.ltb_lt 10 (counted ip a'))) in Hva by lia.
      subst va. by eexists.
    + simpl. split; [done|]. split; [done|]. split.
      { destruct Hp as [Hp|Hp]; [left; lia | by right]. }
      intros _ ->. done.
Qed.

Lemma verdicts_login_rejected (T : Z) (ip : string) (reqs : list arrival) :
  ∀ (s : Limits) (n i : nat) (r : arrival),
    window_outlasts T ip (general_store s) →
    window_outlasts T ip (auth_store s) →
    login_progress ip s n →
    (∀ r', r' ∈ reqs → T - 15 * 60 * 1000 ≤ at_ms r' < T) →
    reqs !! i = Some r →
    from_ip r = ip → to_path r = "/auth/login" →
    (10 ≤ n + logins ip (take i reqs))%nat →
    ∃ resp, verdicts reqs s !! i = Some (Some resp) ∧ status resp = 429.
Proof.
  induction reqs as [|x xs IH]; intros s n i r Hg Ha Hp Htimes Hi Hip Hpath Hten;
    [done|].
  assert (Hx : T - 15 * 60 * 1000 ≤ at_ms x < T) by (apply Htimes; left).
  pose proof (limiters_step T (at_ms x) ip (from_ip x) (to_path x) s n Hg Ha Hx Hp)
    as Hstep.
  simpl. destruct (limiters (at_ms x) (from_ip x) (to_path x) s) as [v s'].
  destruct Hstep as (Hg' & Ha' & Hp' & Hlogin).
  destruct i as [|i]; simpl in Hi, Hten |- *.
  - injection Hi as ->. destruct (Hlogin Hip Hpath) as [_ Hrej].
    destruct Hrej as (resp & -> & Hs); [lia|]. by exists resp.
  - destruct (is_login ip x) eqn:Hl.
    + apply andb_true_iff in Hl as [Hl1%bool_decide_eq_true Hl2%bool_decide_eq_true].
      destruct (Hlogin Hl1 Hl2) as [Hp'' _].
      apply (IH s' (S n) i r); try done; [|lia].
      intros r' Hr'. apply Htimes. by right.
    + apply (IH s' n i r); try done.
      intros r' Hr'. apply Htimes. by right.
Qed.

(** Ten login attempts pass both limiters, the eleventh is rejected by
    the auth limiter; /health is never counted. *)
Example eleven_logins :
  verdicts (replicate 11 (Arrival 1000 "10.0.0.9" "/auth/login")) (MkLimits ∅ ∅)
  = replicate 10 None
    ++ [Some (Response 429 (PError "Too many authentication attempts"))].
Proof. vm_compute. reflexivity. Qed.

Example health_never_limited :
  verdicts (replicate 150 (Arrival 1000 "10.0.0.9" "/health")) (MkLimits ∅ ∅)
  = replicate 150 None.
Proof. vm_compute. reflexivity. Qed.

Example hundred_and_first_request :
  verdicts (replicate 101 (Arrival 1000 "10.0.0.9" "/products")) (MkLimits ∅ ∅) !! 100%nat
  = Some (Some (Response 429 (PError "Too many requests, please try again later"))).
Proof. vm_compute. reflexivity. Qed.

(** What one request does to the counters of the two limiters: the
    general one counts it unless its path is /health; the auth one counts
    it when its path is under /auth and the general one has let it
    through. *)
Lemma limiters_stores (now : Z) (ip path : string) (s : Limits) :
  general_store (limiters now ip path s).2
  = (if bool_decide (path = "/health") then general_store s
     else counting generalLimiter now ip (general_store s))
  ∧ auth_store (limiters now ip path s).2
    = (if mounted_at "/auth" path
          && (RateLimit.hits (RateLimit.increment generalLimiter now
                                (general_store s !! ip)) <=? 100)
       then counting authLimiter now ip (auth_store s)
       else auth_store s).
Proof.
  unfold limiters, RateLimit.rateLimit, counting.
  change (RateLimit.skip generalLimiter path) with (bool_decide (path = "/health")).
  change (RateLimit.skip authLimiter path) with false.
  change (RateLimit.max generalLimiter) with 100.
  case_bool_decide as Hpath.
  - subst path. by change (mounted_at "/auth" "/health") with false.
  - set (g := RateLimit.increment generalLimiter now (general_store s !! ip)).
    rewrite (Z.leb_antisym 100 (RateLimit.hits g)).
    destruct (100 <? RateLimit.hits g); simpl.
    + by rewrite andb_false_r.
    + rewrite andb_true_r. destruct (mounted_at "/auth" path); [|done].
      simpl. by destruct (_ <? _).
Qed.

Lemma counting_changes (o : RateLimit.options) (now : Z) (ip : string) :
  counting o now ip ∅ ≠ ∅.
Proof. apply insert_non_empty. Qed.

Lemma mounted_not_health (path : string) :
  mounted_at "/auth" path = true → path ≠ "/health".
Proof. by intros Hm ->. Qed.

Lemma general_applies_iff (path : string) :
  general_applies path ↔ path ≠ "/health".
Proof.
  split.
  - intros (now & ip & s & Hne) ->. apply Hne.
    by rewrite (proj1 (limiters_stores now ip "/health" s)).
  - intros Hne. exists 0, "", (MkLimits ∅ ∅).
    rewrite (proj1 (limiters_stores 0 "" path (MkLimits ∅ ∅))).
    rewrite bool_decide_eq_false_2 by done. apply counting_changes.
Qed.

Lemma auth_applies_iff (path : string) :
  auth_applies path ↔ mounted_at "/auth" path = true.
Proof.
  split.
  - intros (now & ip & s & Hne).
    rewrite (proj2 (limiters_stores now ip path s)) in Hne.
    by destruct (mounted_at "/auth" path).
  - intros Hm. exists 0, "", (MkLimits ∅ ∅).
    rewrite (proj2 (limiters_stores 0 "" path (MkLimits ∅ ∅))), Hm.
    apply counting_changes.
Qed.

(** C3 as stated does not hold: the two policies do not apply to
    disjoint route sets.  A login request meets both limiters, and each
    of them counts it. *)
Lemma limiter_route_sets_overlap :
  general_applies "/auth/login" ∧ auth_applies "/auth/login"
  ∧ limiters 1000 "10.0.0.9" "/auth/login" (MkLimits ∅ ∅)
    = (None, MkLimits {[ "10.0.0.9" := RateLimit.Window 1 901000 ]}
                      {[ "10.0.0.9" := RateLimit.Window 1 901000 ]}).
Proof.
  split; [by apply general_applies_iff|]. split; [by apply auth_applies_iff|].
  reflexivity.
Qed.

(** C3, amended.  The general policy applies to every path except
    /health: it counts every request to another path and lets a request
    to /health through without counting.  The auth policy applies to the
    paths under /auth; there it counts, in addition to the general
    policy, the requests the general policy has let through, so every
    route of the auth policy is also a route of the general one.  For any
    client, in a sequence of requests that all fall within the client's
    current 15-minute windows, the 11th and every later login attempt of
    the client is answered 429. *)
Theorem limiters_nested_and_eleventh_login_rejected :
  (∀ path, auth_applies path → general_applies path)
  ∧ (∀ path, general_applies path ↔ path ≠ "/health")
  ∧ (∀ path, auth_applies path ↔ mounted_at "/auth" path = true)
  ∧ (∀ now ip path s, path ≠ "/health" →
       general_store (limiters now ip path s).2
       = counting generalLimiter now ip (general_store s))
  ∧ (∀ now ip path s,
       auth_store (limiters now ip path s).2
       = if mounted_at "/auth" path
            && (RateLimit.hits (RateLimit.increment generalLimiter now
                                  (general_store s !! ip)) <=? 100)
         then counting authLimiter now ip (auth_store s)
         else auth_store s)
  ∧ (∀ now ip s, limiters now ip "/health" s = (None, s))
  ∧ ∀ (T : Z) (ip : string) (s : Limits) (reqs : list arrival) (i : nat)
      (r : arrival),
      window_outlasts T ip (general_store s) →
      window_outlasts T ip (auth_store s) →
      (∀ r', r' ∈ reqs → T - 15 * 60 * 1000 ≤ at_ms r' < T) →
      reqs !! i = Some r →
      from_ip r = ip → to_path r = "/auth/login" →
      (10 ≤ logins ip (take i reqs))%nat →
      ∃ resp, verdicts reqs s !! i = Some (Some resp) ∧ status resp = 429.
Proof.
  split; [|split; [|split; [|split; [|split; [|split]]]]].
  - intros path Ha. apply general_applies_iff, mounted_not_health.
    by apply auth_applies_iff.
  - apply general_applies_iff.
  - apply auth_applies_iff.
  - intros now ip path s Hne.
    rewrite (proj1 (limiters_stores now ip path s)).
    by rewrite bool_decide_eq_false_2.
  - intros now ip path s. apply limiters_stores.
  - intros now ip [g a]. done.
  - intros T ip s reqs i r Hg Ha Htimes Hi Hip Hpath Hten.
    apply (verdicts_login_rejected T ip reqs s 0 i r); try done.
    unfold login_progress. right.
    unfold counted. destruct (auth_store s !! ip) as [w|] eqn:E; simpl; [|done].
    by apply Ha.
Qed.

Lemma limiters_nested_and_eleventh_login_rejected_witness :
  let attempt := Arrival 1000 "10.0.0.9" "/auth/login" in
  let reqs := replicate 11 attempt in
  ∃ resp,
    verdicts reqs (MkLimits ∅ ∅) !! 10%nat = Some (Some resp) ∧ status resp = 429.
Proof.
  intros attempt reqs.
  destruct limiters_nested_and_eleventh_login_rejected
    as (_ & _ & _ & _ & _ & _ & Hlogin).
  apply (Hlogin 900000 "10.0.0.9" (MkLimits ∅ ∅) reqs 10%nat attempt).
  - intros w Hw. simpl in Hw. by rewrite lookup_empty in Hw.
  - intros w Hw. simpl in Hw. by rewrite lookup_empty in Hw.
  - intros r' Hr'. apply elem_of_replicate in Hr' as [-> _]. simpl. lia.
  - reflexivity.
  - reflexivity.
  - reflexivity.
  - vm_compute. lia.
Defined.

(** Letter case does not take a path out of the auth policy, and a path
    that merely starts with the same letters is not under it. *)
Example auth_mount_examples :
  mounted_at "/auth" "/AUTH/Login" = true ∧ mounted_at "/auth" "/auth" = true
  ∧ mounted_at "/auth" "/authors" = false ∧ mounted_at "/auth" "/cart" = false.
Proof. vm_compute. done. Qed.

End RateLimiting.

(** * The scenarios of the specification *)

Section Scenarios.

(** Cart [{productId: 1, price: 10, quantity: 2}]: checkout computes the
    total 20; the order service returns [{id: 42}]; the caller receives
    it and a subsequent GET /cart returns the empty sequence. *)
Example checkout_scenario :
  let env := MkEnv (λ _, None) (λ _, NetworkError)
                   (λ o, if SFeqb (order_total o) 20
                         then Http 201 (Some (JObj [("id", JNum 42)]))
                         else Http 400 None)
                   (λ _, Http 200 None) (λ _, NetworkError) NetworkError in
  let user := Claims "7" "user" 2000000000 in
  let w := MkWorld (MkRedis true
             {[ "cart:7" := Entry (VCart [Item 1 "pen" 10 "pen.png" 2]) 100 ]}) [] in
  let (r, w') := run (postOrders env 10 user) w in
  r = Some (Response 201 (PJson (JObj [("id", JNum 42)])))
  ∧ (run (getCart 11 user) w').1 = Some (Response 200 (PCart [])).
Proof. vm_compute. split; reflexivity. Qed.

(** No Authorization header on GET /cart: 401 "Authentication required". *)
Example missing_header_scenario (env : Env) (now : Z) (w : World) :
  run (authenticated env now None (getCart now)) w
  = (Some (Response 401 (PError "Authentication required")), w).
Proof. reflexivity. Qed.

End Scenarios.

(** * The middlewares, on every input *)

Section Middlewares.

Lemma split_space_cons (a b : string) :
  space_free a = true →
  split_space (a +:+ " " +:+ b) = a :: split_space b.
Proof.
  induction a as [|c a IH]; simpl; [done|].
  intros [Hc Ha]%andb_true_iff. apply negb_true_iff in Hc. rewrite Hc.
  by rewrite (IH Ha).
Qed.

Lemma split_space_free (s : string) :
  Forall (λ seg, space_free seg = true) (split_space s).
Proof.
  induction s as [|c s IH]; simpl; [by repeat constructor|].
  destruct (Ascii.eqb c " ") eqn:Hc; [by constructor|].
  destruct (split_space s) as [|seg rest].
  - constructor; [|done]. simpl. by rewrite Hc.
  - apply Forall_cons in IH as [Hseg Hrest].
    constructor; [|done]. simpl. by rewrite Hc, Hseg.
Qed.

Lemma split_space_head_free (t : string) :
  space_free t = true → split_space t = [t].
Proof.
  induction t as [|c t IH]; simpl; [done|].
  intros [Hc Ht]%andb_true_iff. apply negb_true_iff in Hc. rewrite Hc.
  by rewrite (IH Ht).
Qed.

(** X4.  The token the middlewares read is the second blank-separated
    word of the Authorization header: it is never empty and never
    contains a blank, and the first word is not looked at, so a header
    made of any blank-free scheme word, one blank and a non-empty
    blank-free token yields that token. *)
Theorem bearer_token_second_word :
  (∀ h t, bearer_token h = Some t → t ≠ "" ∧ space_free t = true)
  ∧ ∀ scheme t,
      space_free scheme = true → space_free t = true → t ≠ "" →
      bearer_token (Some (scheme +:+ " " +:+ t)) = Some t.
Proof.
  split.
  - intros [h|] t; simpl; [|done].
    destruct (split_space h !! 1%nat) as [seg|] eqn:E; [|done].
    case_bool_decide; [done|]. intros [= <-]. split; [done|].
    pose proof (split_space_free h) as Hall.
    rewrite Forall_forall in Hall. apply Hall.
    by eapply list_elem_of_lookup_2.
  - intros scheme t Hs Ht Hne. simpl.
    rewrite (split_space_cons _ _ Hs), (split_space_head_free _ Ht). simpl.
    by rewrite bool_decide_eq_false_2.
Qed.

Lemma bearer_token_second_word_witness :
  bearer_token (Some "Basic abc.def") = Some "abc.def".
Proof.
  apply (proj2 bearer_token_second_word "Basic" "abc.def"); [reflexivity..|discriminate].
Defined.

(** X1.  The only way past [authenticateToken] is a token that
    [jwt.verify] accepts, with the cache reachable and no live marker for
    the token in it; the payload handed on is the one [jwt.verify]
    returned.  On every other input the middleware answers 401 or 403
    itself.  It never throws and never changes the cache or sends a
    request. *)
Theorem authenticateToken_total (env : Env) (now : Z) (authHeader : option string)
    (w : World) :
  (∃ token decoded,
     bearer_token authHeader = Some token
     ∧ redis_up (redis w) = true
     ∧ not_revoked now token w
     ∧ jwt_verify env token = Some decoded
     ∧ authenticateToken env now authHeader w = (Val decoded, w))
  ∨ (∃ st msg,
       (st = 401 ∨ st = 403)
       ∧ authenticateToken env now authHeader w = (Reply (Response st (PError msg)), w)).
Proof.
  unfold authenticateToken, not_revoked.
  destruct (bearer_token authHeader) as [token|]; [|right; eexists _, _; eauto].
  unfold try_catch, bind, redis_get, reply, ret, throw.
  destruct (redis_up (redis w)) eqn:Hup; [|right; eexists _, _; eauto].
  destruct (from_option rval_truthy false _) eqn:Hrev; [right; eexists _, _; eauto|].
  destruct (jwt_verify env token) as [decoded|] eqn:Hv; [|right; eexists _, _; eauto].
  left. exists token, decoded. done.
Qed.

(** X2.  While the cache is unreachable, every request that carries a
    token is answered 403 "Invalid or expired token" on every protected
    route, whatever the token; the route's handler does not run. *)
Theorem cache_outage_rejects_tokens (env : Env) (now : Z)
    (authHeader : option string) (token : string) (k : claims → handler unit)
    (w : World) :
  bearer_token authHeader = Some token →
  redis_up (redis w) = false →
  run (authenticated env now authHeader k) w
  = (Some (Response 403 (PError "Invalid or expired token")), w).
Proof.
  intros Htok Hdown.
  unfold run, authenticated, bind, authenticateToken. rewrite Htok.
  unfold try_catch, bind, redis_get. by rewrite Hdown.
Qed.

Lemma cache_outage_rejects_tokens_witness :
  let env := MkEnv (λ _, Some (Claims "7" "user" 2000000000)) (λ _, NetworkError)
                   (λ _, NetworkError) (λ _, NetworkError) (λ _, NetworkError)
                   NetworkError in
  let w := MkWorld (MkRedis false ∅) [] in
  run (authenticated env 10 (Some "Bearer abc") (getCart 10)) w
  = (Some (Response 403 (PError "Invalid or expired token")), w).
Proof.
  intros env w.
  apply (cache_outage_rejects_tokens env 10 (Some "Bearer abc") "abc"); reflexivity.
Defined.

(** X3.  [optionalAuth] always continues to the next handler: it never
    answers, never throws and changes nothing.  It attaches a user only
    when the header carries a token that [jwt.verify] accepts while the
    cache is reachable and holds no live marker for it; in that case it
    does attach the decoded payload. *)
Theorem optionalAuth_total (env : Env) (now : Z) (authHeader : option string)
    (w : World) :
  ∃ user,
    optionalAuth env now authHeader w = (Val user, w)
    ∧ ∀ decoded,
        user = Some decoded ↔
        ∃ token,
          bearer_token authHeader = Some token
          ∧ redis_up (redis w) = true
          ∧ not_revoked now token w
          ∧ jwt_verify env token = Some decoded.
Proof.
  unfold optionalAuth, not_revoked.
  destruct (bearer_token authHeader) as [token|].
  2:{ exists None. split; [done|]. intros d. split; [done | by intros (? & ? & _)]. }
  unfold try_catch, bind, redis_get, ret, throw.
  destruct (redis_up (redis w)) eqn:Hup.
  2:{ exists None. split; [done|]. intros d. split; [done|].
      by intros (? & _ & ? & _). }
  destruct (from_option rval_truthy false _) eqn:Hrev.
  { exists None. split; [done|]. intros d. split; [done|].
    intros (t & [= <-] & _ & Hr & _). congruence. }
  destruct (jwt_verify env token) as [decoded|] eqn:Hv.
  - exists (Some decoded). split; [done|]. intros d. split.
    + intros [= <-]. by exists token.
    + intros (t & [= <-] & _ & _ & Hd). congruence.
  - exists None. split; [done|]. intros d. split; [done|].
    intros (t & [= <-] & _ & _ & Hd). congruence.
Qed.

(** X5.  Logging out a token that has not expired revokes it for the
    rest of its life: from then on, and until the token's own expiry
    time, [authenticateToken] answers 401 "Token has been revoked" to the
    same header whatever [jwt.verify] says.  The marker is gone once the
    token has expired, and no other key of the cache is touched. *)
Theorem logout_revokes_until_expiry (now : Z) (authHeader : option string)
    (token : string) (user : claims) (w : World) :
  bearer_token authHeader = Some token →
  redis_up (redis w) = true →
  now < exp user →
  ∃ w',
    run (postLogout now token user) w
      = (Some (Response 200 (PMessage "Logged out successfully")), w')
    ∧ (∀ env later, later < exp user →
         authenticateToken env later authHeader w'
         = (Reply (Response 401 (PError "Token has been revoked")), w'))
    ∧ (∀ later, exp user ≤ later →
         redis_data (redis w') !! blacklist_key token ≫= live later = None)
    ∧ ∀ k, k ≠ blacklist_key token →
        redis_data (redis w') !! k = redis_data (redis w) !! k.
Proof.
  intros Htok Hup Hnow.
  unfold run, postLogout, bind, redis_setex, reply.
  rewrite (proj2 (Z.ltb_lt 0 (exp user - now))) by lia. rewrite Hup.
  eexists. split; [reflexivity|]. split; [|split].
  - intros env later Hlater.
    apply (authenticateToken_revoked env later authHeader token (VStr "1" (Some (JNum 1))));
      [done | done | | done].
    simpl. rewrite lookup_insert_eq. simpl. unfold live. simpl.
    by rewrite (proj2 (Z.ltb_lt later (now + (exp user - now)))) by lia.
  - intros later Hlater. simpl. rewrite lookup_insert_eq. simpl. unfold live. simpl.
    by rewrite (proj2 (Z.ltb_ge later (now + (exp user - now)))) by lia.
  - intros k Hk. simpl. by rewrite lookup_insert_ne.
Qed.

Lemma logout_revokes_until_expiry_witness :
  let user := Claims "7" "user" 500 in
  let env := MkEnv (λ _, Some user) (λ _, NetworkError) (λ _, NetworkError)
                   (λ _, NetworkError) (λ _, NetworkError) NetworkError in
  let w := MkWorld (MkRedis true ∅) [] in
  ∃ w',
    run (postLogout 100 "abc" user) w
      = (Some (Response 200 (PMessage "Logged out successfully")), w')
    ∧ authenticateToken env 499 (Some "Bearer abc") w'
      = (Reply (Response 401 (PError "Token has been revoked")), w').
Proof.
  intros user env w.
  destruct (logout_revokes_until_expiry 100 (Some "Bearer abc") "abc" user w)
    as (w' & Hrun & Hrev & _); [reflexivity..|].
  exists w'. split; [exact Hrun|]. apply Hrev. reflexivity.
Defined.

End Middlewares.

(** * The cart routes, on every input *)

Section CartRoutesTotal.

Lemma load_cart_cases (now : Z) (k : string) (w : World) :
  (redis_up (redis w) = false ∧ load_cart now k w = (Exn, w))
  ∨ (redis_up (redis w) = true ∧
     ((∃ s j, redis_data (redis w) !! k ≫= live now = Some (VStr s j) ∧ s ≠ ""
            ∧ load_cart now k w = (Exn, w))
      ∨ ∃ c, load_cart now k w = (Val c, w)
             ∧ (c = [] ∨ ∃ e, redis_data (redis w) !! k = Some e ∧ value e = VCart c))).
Proof.
  unfold load_cart, bind, redis_get, parse_cart, ret, throw.
  destruct (redis_up (redis w)); [right; split; [done|] | by left].
  destruct (redis_data (redis w) !! k) as [e|] eqn:E; simpl;
    [|right; exists []; by split; [|left]].
  unfold live. destruct (now <? expires e); simpl;
    [|right; exists []; by split; [|left]].
  destruct (value e) as [s j|c] eqn:Hv; simpl.
  - case_bool_decide; simpl.
    + right. exists []. by split; [|left].
    + left. by exists s, j.
  - right. exists c. split; [done|]. right. by exists e.
Qed.

(** The handler bodies when the cache cannot be reached: each catch
    block answers 500 with its own message. *)
Lemma cart_route_outage (env : Env) (user : claims) (r : cart_request) (w : World) :
  redis_up (redis w) = false →
  run (cart_route env user r) w
  = (Some (Response 500 (PError (failure_message r))), w).
Proof.
  intros Hdown.
  destruct r; simpl; unfold_handler; by rewrite Hdown.
Qed.


(** A valid token on POST /cart/add: with the cache down from the start
    the answer is 403; with the cache lost once the middleware has let
    the request through it is the handler's 500. *)
Example cache_outage_on_add :
  let env := MkEnv (λ t, if bool_decide (t = "abc")
                         then Some (Claims "7" "user" 2000000000) else None)
                   (λ _, Http 200 (Some (Product "pen" 3 "pen.png")))
                   (λ _, Http 201 (Some JNull)) (λ _, Http 200 None)
                   (λ _, NetworkError) NetworkError in
  let w := MkWorld (MkRedis true ∅) [] in
  let add := AddItem 10 1 2 in
  run (authenticated env 10 (Some "Bearer abc") (λ user, cart_route env user add))
      (cache_lost w)
  = (Some (Response 403 (PError "Invalid or expired token")), cache_lost w)
  ∧ ∃ user,
      authenticateToken env 10 (Some "Bearer abc") w = (Val user, w)
      ∧ run (cart_route env user add) (cache_lost w)
        = (Some (Response 500 (PError "Failed to add to cart")), cache_lost w).
Proof.
  intros env w add. split; [reflexivity|].
  exists (Claims "7" "user" 2000000000). split; reflexivity.
Qed.

End CartRoutesTotal.

Section CartRoutesStep.

Lemma loaded_unique (k : string) (w : World) (c : list item) :
  (c = [] ∨ ∃ e, redis_data (redis w) !! k = Some e ∧ value e = VCart c) →
  carts_unique w → NoDup (pids c).
Proof.
  intros [->|(e & He & Hv)] Hu; [apply NoDup_nil_2 | by eapply Hu].
Qed.

Lemma postCartAdd_loaded (env : Env) (now : Z) (user : claims) (pid qty : Z)
    (w : World) (cart : list item) :
  redis_up (redis w) = true →
  load_cart now (cart_key user) w = (Val cart, w) →
  ∃ r w',
    run (postCartAdd env now user pid qty) w = (r, w') ∧
    match added_cart env cart pid qty with
    | Some cart' =>
        r = Some (Response 200 (PCart cart'))
        ∧ redis w' = redis (with_cart now user cart' w)
    | None => ¬ successful r ∧ redis w' = redis w
    end.
Proof.
  intros Hup Hload. unfold run, postCartAdd, try_catch, bind.
  rewrite Hload. unfold added_cart.
  rewrite <- (find_update (λ q, q + qty) pid cart).
  destruct (list_find (has_pid pid) cart) as [[i e]|].
  - unfold ret, redis_setex, reply. rewrite Hup. eexists _, _. done.
  - unfold fetch. destruct (product_service env pid) as [|st bd].
    + eexists _, _. split; [done|]. split; [|done]. by intros [b [=]].
    + simpl. destruct (ok st); simpl.
      * unfold json_of. simpl. destruct bd as [prod|].
        -- unfold ret, redis_setex, reply. simpl. rewrite Hup. eexists _, _. done.
        -- unfold throw. eexists _, _. split; [done|]. split; [|done]. by intros [b [=]].
      * unfold reply.
        destruct bd; eexists _, _; (split; [done|]); (split; [|done]); by intros [b [=]].
Qed.

Lemma serve_step (env : Env) (user : claims) (r : cart_request) (w : World) :
  cart_step user w (serve env w (user, r)).
Proof.
  unfold serve. simpl.
  destruct (redis_up (redis w)) eqn:Hup.
  2:{ rewrite (cart_route_outage env user r w Hup). by left. }
  destruct r as [now|now pid qty|now items| |now]; simpl.
  - (* GET /cart *)
    left. unfold run, getCart, try_catch, bind, redis_get, json_parse, reply, ret, throw.
    rewrite Hup.
    destruct (redis_data (redis w) !! cart_key user ≫= live now) as [[s [j|]|c]|];
      simpl; try done; by destruct (bool_decide (s = "")).
  - (* POST /cart/add *)
    destruct (load_cart_cases now (cart_key user) w)
      as [[_ Hl]|[_ [(s & j & _ & _ & Hl)|(c & Hl & Hc)]]].
    + left. unfold run, postCartAdd, try_catch, bind. by rewrite Hl.
    + left. unfold run, postCartAdd, try_catch, bind. by rewrite Hl.
    + destruct (postCartAdd_loaded env now user pid qty w c Hup Hl)
        as (r & w' & -> & Hres). simpl.
      destruct (added_cart env c pid qty) as [c'|] eqn:Ha; [|left; by destruct Hres].
      right; left. exists c', (now + cart_ttl). destruct Hres as [_ ->].
      split; [done|]. split; [done|]. intros Hu.
      eapply added_cart_NoDup; [done|]. by eapply loaded_unique.
  - (* POST /cart/sync *)
    unfold run, postCartSync, try_catch, bind.
    destruct (load_cart_cases now (cart_key user) w)
      as [[_ ->]|[_ [(s & j & _ & _ & ->)|(c & -> & Hc)]]]; [by left | by left |].
    unfold redis_setex, reply. rewrite Hup. simpl.
    right; left. eexists _, _. split; [done|]. split; [done|]. intros Hu.
    apply merge_items_NoDup. by eapply loaded_unique.
  - (* DELETE /cart *)
    unfold run, deleteCart, try_catch, bind, redis_del, reply. rewrite Hup. simpl.
    right; right. done.
  - (* POST /orders *)
    destruct (redis_data (redis w) !! cart_key user ≫= live now) as [v|] eqn:Hv.
    2:{ left. unfold run, postOrders, try_catch, bind, redis_get, reply.
        by rewrite Hup, Hv. }
    destruct v as [s j|c].
    { left. unfold run, postOrders, try_catch, bind, redis_get, reply, parse_cart, throw.
      rewrite Hup, Hv. simpl. by case_bool_decide. }
    assert (Hst : stored_cart now user w c) by done.
    unfold run. rewrite (postOrders_submit env now user w c Hst).
    destruct (order_service env _) as [|st bd]; [by left|].
    destruct (ok st); [|destruct bd; by left].
    destruct bd as [ord|]; [|by left].
    destruct (after_order_run env user ord
                (having_sent (PostOrder (OrderRequest (id user) c (cart_total c))) w) Hup)
      as (w' & rest & -> & Hredis & _).
    right; right. done.
Qed.

Lemma cart_key_inj (u v : claims) : cart_key u = cart_key v → id u = id v.
Proof. unfold cart_key. simpl. by intros [=]. Qed.

Lemma cart_key_not_blacklist (u : claims) (token : string) :
  blacklist_key token ≠ cart_key u.
Proof. unfold blacklist_key, cart_key. simpl. by intros [=]. Qed.

Lemma cart_step_frame (user : claims) (w w' : World) :
  cart_step user w w' →
  redis_up (redis w') = redis_up (redis w)
  ∧ ∀ k, k ≠ cart_key user →
      redis_data (redis w') !! k = redis_data (redis w) !! k.
Proof.
  intros [->|[(c' & e & -> & Hup & _)|[-> Hup]]]; simpl.
  - done.
  - split; [done|]. intros k Hk. by rewrite lookup_insert_ne.
  - split; [done|]. intros k Hk. by rewrite lookup_delete_ne.
Qed.

(** X6.  A cart request of one user changes the cache at most under that
    user's cart key.  So it leaves the cart of every other user as it
    was, and it never adds or removes a revocation marker; whether the
    cache is reachable does not change either. *)
Theorem cart_requests_are_confined (env : Env) (user : claims)
    (r : cart_request) (w : World) :
  let w' := serve env w (user, r) in
  redis_up (redis w') = redis_up (redis w)
  ∧ (∀ k, k ≠ cart_key user →
       redis_data (redis w') !! k = redis_data (redis w) !! k)
  ∧ (∀ other t c, id other ≠ id user →
       cart_at t other w' c ↔ cart_at t other w c)
  ∧ (∀ t token, not_revoked t token w' ↔ not_revoked t token w).
Proof.
  intros w'. destruct (cart_step_frame user w w' (serve_step env user r w))
    as [Hup Hframe].
  split; [done|]. split; [done|]. split.
  - intros other t c Hne. unfold cart_at. rewrite Hup, Hframe; [done|].
    intros Hk. by apply cart_key_inj in Hk.
  - intros t token. unfold not_revoked. rewrite Hframe; [done|].
    apply cart_key_not_blacklist.
Qed.

Lemma cart_step_unique (user : claims) (w w' : World) :
  cart_step user w w' → carts_unique w → carts_unique w'.
Proof.
  intros [Heq|[(c' & e & Heq & _ & Hnd)|[Heq _]]] Hu k e0 c; rewrite Heq; simpl.
  - apply Hu.
  - destruct (decide (k = cart_key user)) as [->|Hk].
    + rewrite lookup_insert_eq. intros [= <-] [= <-]. by apply Hnd.
    + rewrite lookup_insert_ne by done. apply Hu.
  - destruct (decide (k = cart_key user)) as [->|Hk].
    + by rewrite lookup_delete_eq.
    + rewrite lookup_delete_ne by done. apply Hu.
Qed.

(** X17.  Uniqueness by product id is an invariant of the cart store:
    if every stored cart is free of repeated product ids, it still is
    after any sequence of cart requests (get, add, sync, clear, checkout)
    of any users, and every cart GET /cart then returns is free of
    repeated product ids.  A cache without carts is such a start. *)
Theorem carts_stay_unique (env : Env) (reqs : list (claims * cart_request))
    (w : World) :
  carts_unique w →
  let w' := foldl (serve env) w reqs in
  carts_unique w'
  ∧ ∀ now user c w'',
      run (getCart now user) w' = (Some (Response 200 (PCart c)), w'') →
      NoDup (pids c).
Proof.
  intros Hu w'.
  assert (Hu' : carts_unique w').
  { unfold w'. clear w'. revert w Hu.
    induction reqs as [|[u r] reqs IH]; intros w Hu; simpl; [done|].
    apply IH. eapply cart_step_unique; [apply serve_step | done]. }
  split; [done|]. intros now user c w''.
  unfold run, getCart, try_catch, bind, redis_get, json_parse, reply, ret, throw.
  destruct (redis_up (redis w')); [|done].
  destruct (redis_data (redis w') !! cart_key user) as [e|] eqn:He; simpl;
    [|intros [= <- _]; apply NoDup_nil_2].
  unfold live. destruct (now <? expires e); simpl;
    [|intros [= <- _]; apply NoDup_nil_2].
  destruct (value e) as [s [j|]|c0] eqn:Hv; simpl.
  - destruct (bool_decide (s = "")); simpl;
      [intros [= <- _]; apply NoDup_nil_2 | intros [=]].
  - destruct (bool_decide (s = "")); simpl;
      [intros [= <- _]; apply NoDup_nil_2 | intros [=]].
  - intros [= <- _]. by eapply Hu'.
Qed.

Lemma carts_stay_unique_witness :
  let env := MkEnv (λ _, None) (λ _, Http 200 (Some (Product "pen" 3 "pen.png")))
                   (λ _, Http 201 (Some JNull)) (λ _, Http 200 None)
                   (λ _, NetworkError) NetworkError in
  let alice := Claims "7" "user" 2000000000 in
  let reqs := [(alice, AddItem 10 1 2);
               (alice, SyncCart 20 [Item 1 "pen" 3 "pen.png" 5; Item 2 "ink" 9 "" 1]);
               (alice, AddItem 30 2 4)] in
  carts_unique (foldl (serve env) (MkWorld (MkRedis true ∅) []) reqs).
Proof.
  intros env alice reqs.
  apply (carts_stay_unique env reqs (MkWorld (MkRedis true ∅) [])).
  intros k e c Hk. simpl in Hk. by rewrite lookup_empty in Hk.
Defined.

End CartRoutesStep.
(** * Clearing, checking out and adding, at the edges *)

Section CartEdges.

Lemma no_cart_checkout (env : Env) (now : Z) (user : claims) (w : World) :
  redis_up (redis w) = true →
  redis_data (redis w) !! cart_key user ≫= live now = None →
  run (postOrders env now user) w
  = (Some (Response 400 (PError "Cart is empty")), w).
Proof.
  intros Hup Hnone.
  unfold run, postOrders, try_catch, bind, redis_get, reply. by rewrite Hup, Hnone.
Qed.

Lemma no_cart_get (now : Z) (user : claims) (w : World) :
  redis_up (redis w) = true →
  redis_data (redis w) !! cart_key user ≫= live now = None →
  run (getCart now user) w = (Some (Response 200 (PCart [])), w).
Proof.
  intros Hup Hnone. apply getCart_at. split; [done|]. by rewrite Hnone.
Qed.

(** X7.  DELETE /cart succeeds whether or not a cart is stored and is
    idempotent: a second clear answers the same and leaves the cache as
    the first left it.  After it GET /cart returns the empty sequence and
    a checkout answers 400 "Cart is empty" without any downstream
    request. *)
Theorem clear_cart_idempotent (env : Env) (user : claims) (w : World) :
  redis_up (redis w) = true →
  ∃ w',
    run (deleteCart user) w = (Some (Response 200 (PMessage "Cart cleared")), w')
    ∧ run (deleteCart user) w' = (Some (Response 200 (PMessage "Cart cleared")), w')
    ∧ sent w' = sent w
    ∧ (∀ now, run (getCart now user) w' = (Some (Response 200 (PCart [])), w'))
    ∧ ∀ now, run (postOrders env now user) w'
             = (Some (Response 400 (PError "Cart is empty")), w').
Proof.
  intros Hup.
  unfold run at 1 2, deleteCart, try_catch, bind, redis_del, reply. rewrite Hup.
  eexists. split; [reflexivity|]. simpl. rewrite delete_delete_eq.
  split; [done|]. split; [done|]. split; intros now.
  - apply no_cart_get; [done|]. simpl. by rewrite lookup_delete_eq.
  - apply no_cart_checkout; [done|]. simpl. by rewrite lookup_delete_eq.
Qed.

Lemma clear_cart_idempotent_witness :
  let env := MkEnv (λ _, None) (λ _, NetworkError) (λ _, Http 201 (Some JNull))
                   (λ _, NetworkError) (λ _, NetworkError) NetworkError in
  let user := Claims "7" "user" 2000000000 in
  let w := MkWorld (MkRedis true
             {[ "cart:7" := Entry (VCart [Item 1 "pen" 3 "pen.png" 5]) 100 ]}) [] in
  ∃ w',
    run (deleteCart user) w = (Some (Response 200 (PMessage "Cart cleared")), w')
    ∧ run (getCart 10 user) w' = (Some (Response 200 (PCart [])), w').
Proof.
  intros env user w.
  destruct (clear_cart_idempotent env user w) as (w' & H1 & _ & _ & H3 & _);
    [reflexivity|].
  exists w'. split; [exact H1 | apply H3].
Defined.

(** X8.  A checkout for a user with no live cart entry (none was ever
    stored, it was cleared, or it expired) answers 400 "Cart is empty",
    sends nothing to the order or notification service and changes
    nothing. *)
Theorem checkout_without_cart (env : Env) (now : Z) (user : claims) (w : World) :
  redis_up (redis w) = true →
  redis_data (redis w) !! cart_key user ≫= live now = None →
  run (postOrders env now user) w
  = (Some (Response 400 (PError "Cart is empty")), w).
Proof. apply no_cart_checkout. Qed.

Lemma checkout_without_cart_witness :
  let env := MkEnv (λ _, None) (λ _, NetworkError) (λ _, Http 201 (Some JNull))
                   (λ _, NetworkError) (λ _, NetworkError) NetworkError in
  let user := Claims "7" "user" 2000000000 in
  let w := MkWorld (MkRedis true
             {[ "cart:7" := Entry (VCart [Item 1 "pen" 3 "pen.png" 5]) 100 ]}) [] in
  run (postOrders env 100 user) w
  = (Some (Response 400 (PError "Cart is empty")), w).
Proof.
  intros env user w. apply (checkout_without_cart env 100 user w).
  - reflexivity.
  - vm_compute. reflexivity.
Defined.

(** X9.  A checkout that succeeded cannot be repeated: once the order
    service has accepted the order, any further checkout of the same
    user answers 400 "Cart is empty" and submits no second order, until
    something is put in the cart again. *)
Theorem checkout_not_repeatable (env : Env) (now : Z) (user : claims)
    (w : World) (cart : list item) (st : Z) (order : json) :
  stored_cart now user w cart →
  order_service env (OrderRequest (id user) cart (cart_total cart))
    = Http st (Some order) →
  ok st = true →
  ∃ w',
    run (postOrders env now user) w = (Some (Response 201 (PJson order)), w')
    ∧ ∀ env' later,
        run (postOrders env' later user) w'
        = (Some (Response 400 (PError "Cart is empty")), w').
Proof.
  intros Hcart Hsvc Hok.
  unfold run at 1. rewrite (postOrders_submit env now user w cart Hcart), Hsvc, Hok.
  destruct Hcart as [Hup _].
  destruct (after_order_run env user order
              (having_sent (PostOrder (OrderRequest (id user) cart (cart_total cart))) w) Hup)
    as (w' & rest & -> & Hredis & _).
  exists w'. split; [done|]. intros env' later.
  apply no_cart_checkout; rewrite Hredis; simpl; [done|].
  by rewrite lookup_delete_eq.
Qed.

Lemma checkout_not_repeatable_witness :
  let env := MkEnv (λ _, None) (λ _, NetworkError)
                   (λ _, Http 201 (Some (JObj [("id", JNum 42)])))
                   (λ _, NetworkError) (λ _, NetworkError) NetworkError in
  let user := Claims "7" "user" 2000000000 in
  let cart := [Item 1 "pen" 10 "pen.png" 2] in
  let w := MkWorld (MkRedis true {[ "cart:7" := Entry (VCart cart) 100 ]}) [] in
  ∃ w',
    run (postOrders env 10 user) w
      = (Some (Response 201 (PJson (JObj [("id", JNum 42)]))), w')
    ∧ run (postOrders env 11 user) w'
      = (Some (Response 400 (PError "Cart is empty")), w').
Proof.
  intros env user cart w.
  destruct (checkout_not_repeatable env 10 user w cart 201 (JObj [("id", JNum 42)]))
    as (w' & H1 & H2).
  - split; [reflexivity|]. vm_compute. reflexivity.
  - reflexivity.
  - reflexivity.
  - exists w'. split; [exact H1 | apply H2].
Defined.

(** X10.  Adding a product that is already in the cart does not consult
    the product service: whatever the catalogue now says about the
    product, the stored name, price and image of every entry stay the
    ones snapshotted when it was first added; the entry of the product
    has its quantity raised by the quantity passed and nothing else in the
    cart changes. *)
Theorem add_existing_keeps_snapshot (env : Env) (now : Z) (user : claims)
    (pid qty : Z) (w : World) (cart : list item) (i : nat) (e : item) :
  cart_at now user w cart →
  list_find (has_pid pid) cart = Some (i, e) →
  let cart' := <[i := set_quantity (quantity e + qty) e]> cart in
  let w' := with_cart now user cart' w in
  run (postCartAdd env now user pid qty) w = (Some (Response 200 (PCart cart')), w')
  ∧ sent w' = sent w
  ∧ Forall2 same_product cart cart'
  ∧ qty_of pid cart' = Some (quantity e + qty)
  ∧ ∀ p, p ≠ pid → qty_of p cart' = qty_of p cart.
Proof.
  intros Hcart Hfind cart' w'.
  pose proof (find_update (λ q, q + qty) pid cart) as Hu. rewrite Hfind in Hu.
  symmetry in Hu. fold cart' in Hu.
  split; [|split; [done|split; [|split]]].
  - unfold run, postCartAdd, try_catch, bind.
    rewrite (load_cart_at _ _ _ _ Hcart), Hfind.
    destruct Hcart as [Hup _]. unfold ret, redis_setex, reply. by rewrite Hup.
  - by eapply update_first_same.
  - rewrite (update_first_qty _ _ _ _ pid Hu), decide_True by done.
    unfold qty_of. by rewrite Hfind.
  - intros p Hp. by rewrite (update_first_qty _ _ _ _ p Hu), decide_False.
Qed.

Lemma add_existing_keeps_snapshot_witness :
  let env := MkEnv (λ _, None) (λ _, Http 404 None) (λ _, NetworkError)
                   (λ _, NetworkError) (λ _, NetworkError) NetworkError in
  let user := Claims "7" "user" 2000000000 in
  let w := MkWorld (MkRedis true
             {[ "cart:7" := Entry (VCart [Item 1 "pen" 3 "pen.png" 5]) 100 ]}) [] in
  (run (postCartAdd env 10 user 1 2) w).1
  = Some (Response 200 (PCart [Item 1 "pen" 3 "pen.png" 7])).
Proof.
  intros env user w.
  destruct (add_existing_keeps_snapshot env 10 user 1 2 w
              [Item 1 "pen" 3 "pen.png" 5] 0%nat (Item 1 "pen" 3 "pen.png" 5))
    as (Hrun & _).
  - split; [reflexivity|]. vm_compute. reflexivity.
  - reflexivity.
  - exact (f_equal fst Hrun).
Defined.

(** X11.  When the product is not in the cart and the product service
    cannot be reached, or answers with a success status and a body that
    is not JSON, POST /cart/add answers 500 "Failed to add to cart" and
    the cache is left exactly as it was. *)
Theorem add_item_lookup_failure (env : Env) (now : Z) (user : claims)
    (pid qty : Z) (w : World) (cart : list item) :
  cart_at now user w cart →
  pid ∉ pids cart →
  (product_service env pid = NetworkError
   ∨ ∃ st, product_service env pid = Http st None ∧ ok st = true) →
  ∃ w',
    run (postCartAdd env now user pid qty) w
      = (Some (Response 500 (PError "Failed to add to cart")), w')
    ∧ redis w' = redis w
    ∧ sent w' = sent w ++ [GetProduct pid].
Proof.
  intros Hcart Hnew Hsvc. exists (having_sent (GetProduct pid) w). split; [|done].
  unfold run, postCartAdd, try_catch, bind.
  rewrite (load_cart_at _ _ _ _ Hcart).
  apply list_find_pid_None in Hnew. rewrite Hnew. unfold fetch.
  destruct Hsvc as [->|(st & -> & Hok)]; [done|]. simpl. by rewrite Hok.
Qed.

Lemma add_item_lookup_failure_witness :
  let env := MkEnv (λ _, None) (λ _, NetworkError) (λ _, NetworkError)
                   (λ _, NetworkError) (λ _, NetworkError) NetworkError in
  let user := Claims "7" "user" 2000000000 in
  let w := MkWorld (MkRedis true ∅) [] in
  ∃ w',
    run (postCartAdd env 10 user 1 2) w
      = (Some (Response 500 (PError "Failed to add to cart")), w')
    ∧ redis w' = redis w
    ∧ sent w' = sent w ++ [GetProduct 1].
Proof.
  intros env user w.
  apply (add_item_lookup_failure env 10 user 1 2 w []).
  - split; reflexivity.
  - apply not_elem_of_nil.
  - by left.
Defined.

End CartEdges.
(** * Algebra of POST /cart/sync *)

Section SyncAlgebra.

Lemma set_quantity_same (c : item) : set_quantity (quantity c) c = c.
Proof. by destruct c. Qed.

Lemma update_first_fixed (f : Z → Z) (p : Z) (cart : list item) (q : Z) :
  qty_of p cart = Some q → f q = q → update_first f p cart = Some cart.
Proof.
  induction cart as [|c cs IH]; simpl; [done|].
  rewrite qty_of_cons. destruct (decide (productId c = p)).
  - intros [= <-] ->. by rewrite set_quantity_same.
  - intros Hq Hf. by rewrite (IH Hq Hf).
Qed.

Lemma merge_item_dominated (cart : list item) (it : item) (q : Z) :
  qty_of (productId it) cart = Some q → quantity it ≤ q →
  merge_item cart it = cart.
Proof.
  intros Hq Hle. rewrite merge_item_update.
  rewrite (update_first_fixed _ _ _ q Hq); [done | lia].
Qed.

Lemma merge_items_dominated (items cart : list item) :
  (∀ it, it ∈ items →
     ∃ q, qty_of (productId it) cart = Some q ∧ quantity it ≤ q) →
  foldl merge_item cart items = cart.
Proof.
  induction items as [|it items IH]; intros Hdom; simpl; [done|].
  destruct (Hdom it) as (q & Hq & Hle); [left|].
  rewrite (merge_item_dominated cart it q Hq Hle).
  apply IH. intros it' Hin. apply Hdom. by right.
Qed.

Lemma merged_dominates (items cart : list item) :
  ∀ it, it ∈ items →
    ∃ q, qty_of (productId it) (foldl merge_item cart items) = Some q
         ∧ quantity it ≤ q.
Proof.
  intros it Hin. rewrite merge_items_qty.
  destruct (incoming_qty_ge it items Hin) as (q & Hq & Hle).
  destruct (omax_ge_r (qty_of (productId it) cart) _ q Hq) as (q' & Hq' & Hle').
  exists q'. split; [done | lia].
Qed.

Lemma with_cart_twice now1 now2 user c1 c2 w :
  with_cart now2 user c2 (with_cart now1 user c1 w) = with_cart now2 user c2 w.
Proof. unfold with_cart. simpl. by rewrite insert_insert_eq. Qed.

(** X13.  A synced cart lives for exactly seven days from the sync:
    GET /cart returns it at every time before [now + 604800] seconds and
    the empty sequence from then on, when a checkout also answers 400
    "Cart is empty".  Reading the cart does not extend its life: GET
    /cart leaves the cache as it is. *)
Theorem synced_cart_lifetime (env : Env) (now later : Z) (user : claims)
    (items : list item) (w : World) (cart : list item) :
  cart_at now user w cart →
  let cart' := foldl merge_item cart items in
  let w' := with_cart now user cart' w in
  run (postCartSync now user items) w = (Some (Response 200 (PCart cart')), w')
  ∧ (later < now + 604800 →
     run (getCart later user) w' = (Some (Response 200 (PCart cart')), w'))
  ∧ (now + 604800 ≤ later →
     run (getCart later user) w' = (Some (Response 200 (PCart [])), w')
     ∧ run (postOrders env later user) w'
       = (Some (Response 400 (PError "Cart is empty")), w')).
Proof.
  intros Hcart cart' w'. split; [by apply postCartSync_at|]. split.
  - intros Hlt. by apply getCart_at, cart_at_with_cart.
  - intros Hge.
    assert (Hnone : redis_data (redis w') !! cart_key user ≫= live later = None).
    { simpl. rewrite lookup_insert_eq. simpl. unfold live. simpl.
      by rewrite (proj2 (Z.ltb_ge later (now + cart_ttl))) by (unfold cart_ttl; lia). }
    split; [by apply no_cart_get | by apply no_cart_checkout].
Qed.

Lemma synced_cart_lifetime_witness :
  let env := MkEnv (λ _, None) (λ _, NetworkError) (λ _, Http 201 (Some JNull))
                   (λ _, NetworkError) (λ _, NetworkError) NetworkError in
  let user := Claims "7" "user" 2000000000 in
  let w := MkWorld (MkRedis true ∅) [] in
  let items := [Item 1 "pen" 3 "pen.png" 5] in
  let w' := with_cart 0 user items w in
  run (getCart 604799 user) w' = (Some (Response 200 (PCart items)), w')
  ∧ run (getCart 604800 user) (with_cart 0 user items w)
    = (Some (Response 200 (PCart [])), w').
Proof.
  intros env user w items w'.
  destruct (synced_cart_lifetime env 0 604799 user items w []) as (_ & H1 & _);
    [by split|].
  destruct (synced_cart_lifetime env 0 604800 user items w []) as (_ & _ & H2);
    [by split|].
  split; [apply H1; reflexivity | apply H2; discriminate].
Defined.

(** X14.  Syncing is idempotent: sending the same item list a second
    time, while the cart is still stored, returns the same cart as the
    first time and changes nothing in the cache but the expiry time of
    the cart. *)
Theorem sync_cart_idempotent (now1 now2 : Z) (user : claims) (items : list item)
    (w : World) (cart : list item) :
  cart_at now1 user w cart →
  now2 < now1 + cart_ttl →
  let cart' := foldl merge_item cart items in
  run (postCartSync now1 user items) w
    = (Some (Response 200 (PCart cart')), with_cart now1 user cart' w)
  ∧ run (postCartSync now2 user items) (with_cart now1 user cart' w)
    = (Some (Response 200 (PCart cart')), with_cart now2 user cart' w).
Proof.
  intros Hcart Hlt cart'. split; [by apply postCartSync_at|].
  rewrite (postCartSync_at now2 user items _ cart'
             (cart_at_with_cart now1 now2 user cart' w Hlt)).
  rewrite (merge_items_dominated items cart' (merged_dominates items cart)).
  by rewrite with_cart_twice.
Qed.

Lemma sync_cart_idempotent_witness :
  let user := Claims "7" "user" 2000000000 in
  let w := MkWorld (MkRedis true
             {[ "cart:7" := Entry (VCart [Item 1 "pen" 3 "pen.png" 5]) 100 ]}) [] in
  let items := [Item 1 "pen" 3 "pen.png" 8; Item 2 "ink" 9 "ink.png" 1] in
  let w1 := (run (postCartSync 10 user items) w).2 in
  (run (postCartSync 20 user items) w1).1 = (run (postCartSync 10 user items) w).1.
Proof.
  intros user w items w1.
  destruct (sync_cart_idempotent 10 20 user items w [Item 1 "pen" 3 "pen.png" 5])
    as [H1 H2].
  - split; [reflexivity|]. vm_compute. reflexivity.
  - reflexivity.
  - unfold w1. rewrite H1. exact (f_equal fst H2).
Defined.

(** X15.  A sync cannot lower anything: when every item of the request
    is already in the stored cart with at least the quantity the request
    carries, the route returns the stored cart unchanged (and refreshes
    its expiry time).  In particular a client that sends back a stale
    copy of its cart, with smaller quantities or fewer items, changes
    nothing. *)
Theorem sync_of_dominated_items (now : Z) (user : claims) (items : list item)
    (w : World) (cart : list item) :
  cart_at now user w cart →
  (∀ it, it ∈ items →
     ∃ q, qty_of (productId it) cart = Some q ∧ quantity it ≤ q) →
  run (postCartSync now user items) w
  = (Some (Response 200 (PCart cart)), with_cart now user cart w).
Proof.
  intros Hcart Hdom. rewrite (postCartSync_at now user items w cart Hcart).
  by rewrite (merge_items_dominated items cart Hdom).
Qed.

Lemma sync_of_dominated_items_witness :
  let user := Claims "7" "user" 2000000000 in
  let cart := [Item 1 "pen" 3 "pen.png" 5; Item 2 "ink" 9 "ink.png" 4] in
  let w := MkWorld (MkRedis true {[ "cart:7" := Entry (VCart cart) 100 ]}) [] in
  run (postCartSync 10 user [Item 2 "ink" 1 "" 1]) w
  = (Some (Response 200 (PCart cart)), with_cart 10 user cart w).
Proof.
  intros user cart w.
  apply (sync_of_dominated_items 10 user [Item 2 "ink" 1 "" 1] w cart).
  - split; [reflexivity|]. vm_compute. reflexivity.
  - intros it ->%list_elem_of_singleton. exists 4. split; [reflexivity | simpl; lia].
Defined.

Lemma omax_comm a b : omax a b = omax b a.
Proof. destruct a, b; simpl; try done. by rewrite Z.max_comm. Qed.

Lemma incoming_qty_perm (p : Z) (items items' : list item) :
  items ≡ₚ items' → incoming_qty p items = incoming_qty p items'.
Proof.
  unfold incoming_qty.
  induction 1 as [|x l l' _ IH|x y l|l1 l2 l3 _ IH1 _ IH2]; cbn [foldr].
  - done.
  - by rewrite IH.
  - repeat case_decide; try done.
    by rewrite <- !omax_assoc, (omax_comm (Some (quantity y))).
  - by rewrite IH1.
Qed.

(** X16.  The quantities a sync leaves in the cart do not depend on the
    order of the items in the request: two requests that carry the same
    items in different orders give every product id the same quantity.
    (Which of two items with the same new product id supplies the name,
    price and image does depend on the order: the first one does.) *)
Theorem sync_quantities_ignore_order (cart items items' : list item) (p : Z) :
  items ≡ₚ items' →
  qty_of p (foldl merge_item cart items) = qty_of p (foldl merge_item cart items').
Proof.
  intros Hperm. by rewrite !merge_items_qty, (incoming_qty_perm p _ _ Hperm).
Qed.

Lemma sync_quantities_ignore_order_witness :
  let cart := [Item 1 "pen" 3 "pen.png" 5] in
  let a := Item 1 "pen" 3 "pen.png" 8 in
  let b := Item 2 "ink" 9 "ink.png" 1 in
  qty_of 1 (foldl merge_item cart [a; b]) = qty_of 1 (foldl merge_item cart [b; a]).
Proof.
  intros cart a b.
  apply (sync_quantities_ignore_order cart [a; b] [b; a] 1). apply perm_swap.
Defined.

End SyncAlgebra.
(** * GET /health, on every input *)

Section HealthTotal.

Lemma serviceChecks_sent (env : Env) (ss : list service) :
  ∀ h w h' w',
    serviceChecks env h ss w = (Val h', w') →
    w' = MkWorld (redis w) (sent w ++ (GetHealth <$> ss)).
Proof.
  induction ss as [|s ss IH]; intros h w h' w'; simpl.
  - intros [= _ <-]. rewrite app_nil_r. by destruct w.
  - unfold bind. rewrite serviceCheck_run. intros Hrun.
    rewrite (IH _ _ _ _ Hrun). simpl. by rewrite <- (assoc_L (++)).
Qed.

Lemma checkDatabase_sent (env : Env) (h : health) (w : World) :
  ∃ d, checkDatabase env h w
       = (Val (with_database d h), having_sent (GetHealth svc_auth) w).
Proof.
  unfold checkDatabase, try_catch, bind, fetch, json_of, ret, throw.
  destruct (database_probe env) as [|st [authData|]]; simpl; [by eexists| |by eexists].
  destruct (get_prop authData "database") as [[d|]|]; by eexists.
Qed.

Lemma some_probe_throws (env : Env) :
  (∀ s, health_probe env s ≠ NetworkError) ∨ ∃ s, health_probe env s = NetworkError.
Proof.
  destruct (health_probe env svc_auth) eqn:H1; [right; by exists svc_auth|].
  destruct (health_probe env svc_product) eqn:H2; [right; by exists svc_product|].
  destruct (health_probe env svc_order) eqn:H3; [right; by exists svc_order|].
  destruct (health_probe env svc_notification) eqn:H4;
    [right; by exists svc_notification|].
  left. intros []; congruence.
Qed.

(** X18.  GET /health answers on every input, never changes the cache
    and probes each configured service once, in configuration order,
    then the auth service once more.  The answer is 200 with status
    "healthy" exactly when the cache ping succeeds and no probe throws,
    and 503 with status "degraded" otherwise.  Each service is labelled
    "unreachable" when its probe throws, "healthy" when it is answered
    with a success status and "unhealthy" when it is answered with any
    other status. *)
Theorem health_check_total (env : Env) (w : World) :
  ∃ st h,
    run (getHealth env) w
      = (Some (Response st (PHealth h)),
         MkWorld (redis w)
           (sent w ++ [GetHealth svc_auth; GetHealth svc_product;
                       GetHealth svc_order; GetHealth svc_notification;
                       GetHealth svc_auth]))
    ∧ ((st = 200 ∧ health_status h = "healthy"
        ∧ redis_up (redis w) = true ∧ ∀ s, health_probe env s ≠ NetworkError)
       ∨ (st = 503 ∧ health_status h = "degraded"
          ∧ (redis_up (redis w) = false ∨ ∃ s, health_probe env s = NetworkError)))
    ∧ ∀ s, health_services h !! service_name s = Some (service_label env s).
Proof.
  destruct (getHealth_run env w) as (h & w' & Hrun & Hcases & Hstatus & Hsvc).
  assert (Hw' : w' = MkWorld (redis w)
                       (sent w ++ [GetHealth svc_auth; GetHealth svc_product;
                                   GetHealth svc_order; GetHealth svc_notification;
                                   GetHealth svc_auth])).
  { revert Hrun. unfold run, getHealth, bind.
    destruct (checkRedis_run (Health "healthy" "" ∅ JNull) w) as (h0 & -> & _).
    destruct (serviceChecks_run env services h0 w) as (h1 & w1 & Hrun1 & _).
    rewrite Hrun1. apply serviceChecks_sent in Hrun1. subst w1.
    destruct (checkDatabase_sent env h1
                (MkWorld (redis w) (sent w ++ (GetHealth <$> services))))
      as (d & ->).
    intros [= _ _ <-]. unfold having_sent. simpl. by rewrite <- (assoc_L (++)). }
  subst w'. eexists _, h. split; [exact Hrun|]. split; [|done].
  destruct Hcases as [Hh|Hd].
  - left. rewrite bool_decide_eq_true_2 by done.
    apply Hstatus in Hh as Hh'. by destruct Hh'.
  - right. rewrite bool_decide_eq_false_2 by (by rewrite Hd).
    split; [done|]. split; [done|].
    destruct (redis_up (redis w)) eqn:Hup; [|by left]. right.
    destruct (some_probe_throws env) as [Hall|Hex]; [|done].
    assert (health_status h = "healthy") by (by apply Hstatus).
    congruence.
Qed.

End HealthTotal.

(** * The storefront's local cart *)

Section Storefront.

Lemma update_first_filter (f : Z → Z) (p : Z) (cart cart' : list item) :
  update_first f p cart = Some cart' →
  filter (λ i, productId i ≠ p) cart' = filter (λ i, productId i ≠ p) cart.
Proof.
  revert cart'. induction cart as [|c cs IH]; intros cart'; simpl; [done|].
  destruct (decide (productId c = p)) as [Hc|Hc].
  - intros [= <-]. rewrite !filter_cons. simpl.
    rewrite !decide_False by (by intros ?). done.
  - destruct (update_first f p cs) as [cs'|] eqn:E; [|done].
    intros [= <-]. rewrite !filter_cons, !decide_True by done.
    by rewrite (IH cs').
Qed.

Lemma update_first_Forall (f : Z → Z) (p : Z) (cart cart' : list item) (q : Z)
    (P : Z → Prop) :
  update_first f p cart = Some cart' →
  qty_of p cart = Some q → P (f q) →
  Forall (λ it, P (quantity it)) cart → Forall (λ it, P (quantity it)) cart'.
Proof.
  revert cart'. induction cart as [|c cs IH]; intros cart'; simpl; [done|].
  rewrite qty_of_cons. destruct (decide (productId c = p)).
  - intros [= <-] [= <-] Hf [_ Hcs]%Forall_cons. by constructor.
  - destruct (update_first f p cs) as [cs'|] eqn:E; [|done].
    intros [= <-] Hq Hf [Hc Hcs]%Forall_cons. constructor; [done | by apply IH].
Qed.

Lemma tidy_filter (pid : Z) (cart : list item) :
  tidy cart → tidy (filter (λ i, productId i ≠ pid) cart).
Proof.
  intros [Hnd Hq]. split.
  - eapply sublist_NoDup; [exact Hnd|]. apply fmap_sublist, sublist_filter.
  - apply Forall_forall. intros x [_ Hx]%list_elem_of_filter.
    rewrite Forall_forall in Hq. by apply Hq.
Qed.

Lemma list_find_qty (p : Z) (cart : list item) (i : nat) (e : item) :
  list_find (has_pid p) cart = Some (i, e) → qty_of p cart = Some (quantity e).
Proof. unfold qty_of. by intros ->. Qed.

Lemma tidy_addToCart products cart pid :
  tidy cart → tidy (Frontend.addToCart products cart pid).
Proof.
  intros [Hnd Hq]. unfold Frontend.addToCart.
  destruct (list_find _ products) as [[j product]|]; [|done].
  pose proof (find_update (λ q, q + 1) pid cart) as Hu.
  destruct (list_find (has_pid pid) cart) as [[i e]|] eqn:Hfind.
  - symmetry in Hu. split.
    + by rewrite (update_first_pids _ _ _ _ Hu).
    + eapply (update_first_Forall _ _ _ _ _ (λ q, 1 ≤ q) Hu);
        [by eapply list_find_qty| |done].
      apply list_find_Some in Hfind as (Hi%list_elem_of_lookup_2 & _ & _).
      rewrite Forall_forall in Hq. specialize (Hq e Hi). simpl in Hq. lia.
  - apply list_find_pid_None in Hfind. split.
    + unfold pids. rewrite fmap_app. simpl. apply NoDup_app. split; [done|].
      split; [|apply NoDup_singleton].
      intros x Hx ->%list_elem_of_singleton. done.
    + apply Forall_app. split; [done|]. by repeat constructor.
Qed.

Lemma tidy_updateCartQuantity cart pid delta :
  tidy cart → tidy (Frontend.updateCartQuantity cart pid delta).
Proof.
  intros Ht. unfold Frontend.updateCartQuantity.
  pose proof (find_update (λ q, q + delta) pid cart) as Hu.
  destruct (list_find (has_pid pid) cart) as [[i e]|] eqn:Hfind; [|done].
  symmetry in Hu. simpl.
  destruct (quantity e + delta <=? 0) eqn:Hle.
  - rewrite (update_first_filter _ _ _ _ Hu). by apply tidy_filter.
  - apply Z.leb_gt in Hle. destruct Ht as [Hnd Hq]. split.
    + by rewrite (update_first_pids _ _ _ _ Hu).
    + eapply (update_first_Forall _ _ _ _ _ (λ q, 1 ≤ q) Hu);
        [by eapply list_find_qty | simpl; lia | done].
Qed.

(** X19.  The storefront keeps its local cart tidy: starting from a cart
    without repeated product ids and with every quantity at least one
    (the empty cart, say), any sequence of add, change-quantity and
    remove clicks leaves such a cart.  A quantity that a change brings to
    zero or below removes the product, and a removed product is no longer
    in the cart. *)
Theorem storefront_cart_stays_tidy (products : list Frontend.product)
    (cart : list item) (actions : list Frontend.action) :
  tidy cart →
  tidy (foldl (Frontend.act products) cart actions)
  ∧ (∀ pid, pid ∉ pids (Frontend.removeFromCart cart pid))
  ∧ ∀ pid delta q,
      qty_of pid cart = Some q → q + delta ≤ 0 →
      Frontend.updateCartQuantity cart pid delta = Frontend.removeFromCart cart pid.
Proof.
  intros Ht. split; [|split].
  - revert cart Ht. induction actions as [|a actions IH]; intros cart Ht; simpl; [done|].
    apply IH. destruct a; simpl.
    + by apply tidy_addToCart.
    + by apply tidy_updateCartQuantity.
    + by apply tidy_filter.
  - intros pid. unfold Frontend.removeFromCart, pids.
    intros (x & Hx & [Hne _]%list_elem_of_filter)%list_elem_of_fmap. by destruct Hne.
  - intros pid delta q Hq Hle. unfold Frontend.updateCartQuantity, Frontend.removeFromCart.
    pose proof (find_update (λ q, q + delta) pid cart) as Hu.
    destruct (list_find (has_pid pid) cart) as [[i e]|] eqn:Hfind.
    + symmetry in Hu. simpl. rewrite (list_find_qty _ _ _ _ Hfind) in Hq.
      injection Hq as <-. rewrite (proj2 (Z.leb_le _ _) Hle).
      by rewrite (update_first_filter _ _ _ _ Hu).
    + unfold qty_of in Hq. by rewrite Hfind in Hq.
Qed.

Lemma storefront_cart_stays_tidy_witness :
  let products := [Frontend.Product 1 "pen" 3 "pen.png";
                   Frontend.Product 2 "ink" 9 "ink.png"] in
  tidy (foldl (Frontend.act products) []
          [Frontend.Add 1; Frontend.Add 1; Frontend.Add 2;
           Frontend.Update 1 (-2); Frontend.Remove 2]).
Proof.
  intros products.
  apply (storefront_cart_stays_tidy products []).
  split; [apply NoDup_nil_2 | constructor].
Defined.

End Storefront.
Section StorefrontSync.

Lemma authenticated_valid (env : Env) (now : Z) (authHeader : option string)
    (token : string) (user : claims) (k : claims → handler unit) (w : World) :
  bearer_token authHeader = Some token →
  redis_up (redis w) = true →
  redis_data (redis w) !! blacklist_key token = None →
  jwt_verify env token = Some user →
  run (authenticated env now authHeader k) w = run (k user) w.
Proof.
  intros Htok Hup Hnone Hv. unfold run, authenticated, bind.
  rewrite (authenticateToken_valid env now authHeader token user w Htok Hup); [done| |done].
  by rewrite Hnone.
Qed.

(** X20.  The storefront's sync never takes anything out of the server
    cart.  For a logged-in user whose token passes the gate, [syncCart]
    leaves the local cart and the server cart both equal to the merge of
    the two: every product the server held is in the local cart again
    with at least the server's quantity, even if the user had removed it
    or lowered its quantity locally, and every local item is there with
    at least its local quantity. *)
Theorem storefront_sync_restores_server_items (env : Env) (now1 now2 : Z)
    (token : string) (user : claims) (local server : list item) (w : World) :
  bearer_token (Some ("Bearer " +:+ token)) = Some token →
  jwt_verify env token = Some user →
  redis_data (redis w) !! blacklist_key token = None →
  cart_at now1 user w server →
  cart_at now2 user w server →
  now2 < now1 + cart_ttl →
  ∃ w',
    Frontend.syncCart env now1 now2 true token local w
      = (foldl merge_item server local, w')
    ∧ cart_at now2 user w' (foldl merge_item server local)
    ∧ (∀ p q, qty_of p server = Some q →
         ∃ q', qty_of p (foldl merge_item server local) = Some q' ∧ q ≤ q')
    ∧ ∀ it, it ∈ local →
        ∃ q', qty_of (productId it) (foldl merge_item server local) = Some q'
              ∧ quantity it ≤ q'.
Proof.
  intros Htok Hv Hnone Hs1 Hs2 Hlt.
  assert (Hup : redis_up (redis w) = true) by (by destruct Hs1).
  assert (Hq : ∀ p q, qty_of p server = Some q →
            ∃ q', qty_of p (foldl merge_item server local) = Some q' ∧ q ≤ q').
  { intros p q Hq. rewrite merge_items_qty. by apply omax_ge_l. }
  unfold Frontend.syncCart. simpl negb. cbv iota.
  destruct local as [|x xs].
  - exists w. rewrite (authenticated_valid env now2 _ token user _ w Htok Hup Hnone Hv).
    rewrite (getCart_at now2 user w server Hs2). simpl.
    split; [done|]. split; [done|]. split; [done|]. by intros it ?%elem_of_nil.
  - set (local := x :: xs) in *. set (merged := foldl merge_item server local).
    rewrite (authenticated_valid env now1 _ token user _ w Htok Hup Hnone Hv).
    rewrite (postCartSync_at now1 user local w server Hs1). fold merged. simpl snd.
    rewrite (authenticated_valid env now2 _ token user _ (with_cart now1 user merged w)
               Htok eq_refl); [| |done].
    2:{ simpl. rewrite lookup_insert_ne; [done|].
        intros Hk. symmetry in Hk. by apply cart_key_not_blacklist in Hk. }
    rewrite (getCart_at now2 user _ merged (cart_at_with_cart now1 now2 user merged w Hlt)).
    simpl. exists (with_cart now1 user merged w).
    split; [done|]. split; [by apply cart_at_with_cart|]. split; [done|].
    apply merged_dominates.
Qed.

Lemma storefront_sync_restores_server_items_witness :
  let user := Claims "7" "user" 2000000000 in
  let env := MkEnv (λ _, Some user) (λ _, NetworkError) (λ _, NetworkError)
                   (λ _, NetworkError) (λ _, NetworkError) NetworkError in
  let server := [Item 1 "pen" 3 "pen.png" 5; Item 2 "ink" 9 "ink.png" 1] in
  let w := MkWorld (MkRedis true {[ "cart:7" := Entry (VCart server) 100 ]}) [] in
  let local := [Item 1 "pen" 3 "pen.png" 2] in
  (Frontend.syncCart env 10 11 true "abc" local w).1 = server.
Proof.
  intros user env server w local.
  destruct (storefront_sync_restores_server_items env 10 11 "abc" user local server w)
    as (w' & Hrun & _).
  - reflexivity.
  - reflexivity.
  - vm_compute. reflexivity.
  - split; [reflexivity|]. vm_compute. reflexivity.
  - split; [reflexivity|]. vm_compute. reflexivity.
  - reflexivity.
  - rewrite Hrun. vm_compute. reflexivity.
Defined.

End StorefrontSync.
(** * Checkout, seen from the gateway and from the storefront *)

Section CheckoutOutcome.

Lemma postOrders_outcome (env : Env) (now : Z) (user : claims) (w : World) :
  ∃ r w',
    run (postOrders env now user) w = (Some r, w')
    ∧ ((∃ order, r = Response 201 (PJson order))
       ∧ redis_up (redis w) = true
       ∧ redis w' = MkRedis true (delete (cart_key user) (redis_data (redis w)))
       ∨ ok (status r) = false ∧ redis w' = redis w).
Proof.
  destruct (redis_up (redis w)) eqn:Hup.
  2:{ pose proof (cart_route_outage env user (Checkout now) w Hup) as Hout.
      simpl in Hout. rewrite Hout.
      eexists _, _. split; [done|]. by right. }
  destruct (redis_data (redis w) !! cart_key user ≫= live now) as [v|] eqn:Hv.
  2:{ rewrite (no_cart_checkout env now user w Hup Hv).
      eexists _, _. split; [done|]. by right. }
  destruct v as [s|c].
  { unfold run, postOrders, try_catch, bind, redis_get, reply, parse_cart, throw.
    rewrite Hup, Hv. simpl.
    case_bool_decide; simpl; eexists _, _; (split; [done|]); by right. }
  assert (Hst : stored_cart now user w c) by done.
  unfold run. rewrite (postOrders_submit env now user w c Hst).
  destruct (order_service env _) as [|st bd];
    [eexists _, _; split; [done|]; by right|].
  destruct (ok st) eqn:Hok.
  2:{ destruct bd; eexists _, _; (split; [done|]); right; by split. }
  destruct bd as [ord|]; [|eexists _, _; split; [done|]; by right].
  destruct (after_order_run env user ord
              (having_sent (PostOrder (OrderRequest (id user) c (cart_total c))) w) Hup)
    as (w' & rest & -> & Hredis & _).
  eexists _, _. split; [done|]. left. split; [by eexists|]. done.
Qed.

(** X22.  POST /orders always answers, and it answers with a success
    status only when it has deleted the user's cart: the status is then
    201 and the body the order payload.  With every other answer (400,
    500, or the relayed non-success status of the order service) the
    cache is exactly as before. *)
Theorem checkout_succeeds_iff_cart_deleted (env : Env) (now : Z) (user : claims)
    (w : World) :
  ∃ r w',
    run (postOrders env now user) w = (Some r, w')
    ∧ ((∃ order, r = Response 201 (PJson order))
       ∧ redis_up (redis w) = true
       ∧ redis w' = MkRedis true (delete (cart_key user) (redis_data (redis w)))
       ∨ ok (status r) = false ∧ redis w' = redis w).
Proof. apply postOrders_outcome. Qed.

(** X23.  The storefront empties its local cart exactly when the gateway
    has deleted the server cart.  Whatever the token, the cart and the
    services do, after [checkout()] either the local cart is empty and
    the cart key of the user the token belongs to is gone from the cache,
    or the local cart and the cache are both exactly as before.  With an
    empty local cart or without a logged-in user no request is made. *)
Theorem storefront_checkout_clears_both_or_neither (env : Env) (now : Z)
    (currentUser : bool) (token : string) (cart : list item) (w : World) :
  let (cart', w') := Frontend.checkout env now currentUser token cart w in
  ((cart' = cart ∧ redis w' = redis w)
   ∨ (cart' = [] ∧ currentUser = true
      ∧ ∃ t user,
          bearer_token (Some ("Bearer " +:+ token)) = Some t
          ∧ jwt_verify env t = Some user
          ∧ redis w' = MkRedis true (delete (cart_key user) (redis_data (redis w)))))
  ∧ ((currentUser = false ∨ cart = []) → w' = w).
Proof.
  unfold Frontend.checkout.
  destruct currentUser; simpl negb; cbv iota; [|split; [by left | done]].
  destruct cart as [|x xs]; [split; [by left | done]|].
  unfold run at 1, authenticated, bind.
  destruct (authenticateToken_total env now (Some ("Bearer " +:+ token)) w)
    as [(t & user & Htok & Hup & Hnr & Hv & ->)|(st & msg & Hst & ->)].
  2:{ destruct Hst as [-> | ->]; simpl; (split; [by left | by intros [|]]). }
  destruct (postOrders_outcome env now user w) as (r & w' & Hrun & Hcases).
  unfold run in Hrun.
  destruct (postOrders env now user w) as [[[]| |r'] w''] eqn:Hp; try done.
  injection Hrun as -> ->.
  destruct Hcases as [((order & ->) & _ & Hredis)|[Hok Hredis]].
  - simpl. split; [|by intros [|]]. right. split; [done|]. split; [done|].
    by exists t, user.
  - rewrite Hok. split; [by left | by intros [|]].
Qed.

End CheckoutOutcome.
(** * Adding from the storefront *)

Section StorefrontAdd.

Lemma addToCart_qty (products : list Frontend.product) (cart : list item)
    (pid : Z) (j : nat) (product : Frontend.product) (p : Z) :
  list_find (λ x, Frontend.id x = pid) products = Some (j, product) →
  qty_of p (Frontend.addToCart products cart pid) =
  if decide (pid = p) then Some (default 0 (qty_of pid cart) + 1) else qty_of p cart.
Proof.
  intros Hprod. unfold Frontend.addToCart. rewrite Hprod.
  pose proof (find_update (λ q, q + 1) pid cart) as Hu.
  destruct (list_find (has_pid pid) cart) as [[i e]|] eqn:Hfind.
  - symmetry in Hu. rewrite (update_first_qty _ _ _ _ p Hu).
    destruct (decide (pid = p)); [|done].
    by rewrite (list_find_qty _ _ _ _ Hfind).
  - assert (Hq : qty_of pid cart = None) by (unfold qty_of; by rewrite Hfind).
    rewrite qty_of_app, qty_of_cons, qty_of_nil. simpl.
    destruct (decide (pid = p)) as [<-|Hne]; [by rewrite Hq|].
    by destruct (qty_of p cart).
Qed.

(** X21.  A click on "add" moves the storefront's cart and the server's
    cart in step.  When the product is in the storefront's catalogue, the
    token passes the gate and the server's add succeeds, the click raises
    the quantity of that product by one in both carts (or enters it with
    quantity one in both), so that carts which agreed on every quantity
    before the click agree on every quantity after it. *)
Theorem storefront_add_in_step (env : Env) (now later : Z) (token : string)
    (user : claims) (products : list Frontend.product) (j : nat)
    (product : Frontend.product) (pid : Z) (local server server' : list item)
    (w : World) :
  list_find (λ x, Frontend.id x = pid) products = Some (j, product) →
  bearer_token (Some ("Bearer " +:+ token)) = Some token →
  jwt_verify env token = Some user →
  redis_data (redis w) !! blacklist_key token = None →
  cart_at now user w server →
  added_cart env server pid 1 = Some server' →
  later < now + cart_ttl →
  cart_at later user (Frontend.syncCartItem env now token pid 1 w) server'
  ∧ ((∀ p, qty_of p local = qty_of p server) →
     ∀ p, qty_of p (Frontend.addToCart products local pid) = qty_of p server').
Proof.
  intros Hprod Htok Hv Hnone Hcart Hadd Hlater. split.
  - unfold Frontend.syncCartItem.
    assert (Hup : redis_up (redis w) = true) by (by destruct Hcart).
    rewrite (authenticated_valid env now _ token user _ w Htok Hup Hnone Hv).
    destruct (postCartAdd_run env now user pid 1 w server Hcart)
      as (r & w' & -> & Hres).
    rewrite Hadd in Hres. destruct Hres as [_ Hredis]. simpl.
    eapply cart_at_redis; [symmetry; exact Hredis|]. by apply cart_at_with_cart.
  - intros Hagree p.
    rewrite (addToCart_qty products local pid j product p Hprod).
    rewrite (added_cart_qty env server pid 1 server' p Hadd).
    by rewrite !Hagree.
Qed.

Lemma storefront_add_in_step_witness :
  let user := Claims "7" "user" 2000000000 in
  let env := MkEnv (λ _, Some user) (λ _, Http 200 (Some (Product "pen" 3 "pen.png")))
                   (λ _, NetworkError) (λ _, NetworkError) (λ _, NetworkError)
                   NetworkError in
  let products := [Frontend.Product 1 "pen" 3 "pen.png"] in
  let w := MkWorld (MkRedis true ∅) [] in
  cart_at 11 user (Frontend.syncCartItem env 10 "abc" 1 1 w)
    [Item 1 "pen" 3 "pen.png" 1]
  ∧ qty_of 1 (Frontend.addToCart products [] 1)
    = qty_of 1 [Item 1 "pen" 3 "pen.png" 1].
Proof.
  intros user env products w.
  destruct (storefront_add_in_step env 10 11 "abc" user products 0%nat
              (Frontend.Product 1 "pen" 3 "pen.png") 1 [] []
              [Item 1 "pen" 3 "pen.png" 1] w
              eq_refl eq_refl eq_refl eq_refl (conj eq_refl eq_refl)
              eq_refl eq_refl) as [Hserver Hlocal].
  split; [exact Hserver|]. apply Hlocal. reflexivity.
Defined.

End StorefrontAdd.
(** * The notification service's registry *)

Section NotifierRegistry.

Import Notifier.

Lemma foldr_send_fields (f : frame) (l : list nat) (h : Hub) :
  next (foldr (send f) h l) = next h
  ∧ clients (foldr (send f) h l) = clients h
  ∧ userId (foldr (send f) h l) = userId h
  ∧ userConnections (foldr (send f) h l) = userConnections h.
Proof. induction l as [|ws l IH]; simpl; [done|]. exact IH. Qed.

Lemma foldr_send_received (f : frame) (l : list nat) (h : Hub) (ws : nat) :
  NoDup l →
  received (foldr (send f) h l) !! ws =
  if decide (ws ∈ l) then Some (default [] (received h !! ws) ++ [f])
  else received h !! ws.
Proof.
  induction 1 as [|x l Hx Hnd IH]; cbn [foldr].
  - destruct (decide (ws ∈ [])) as [?%elem_of_nil|]; done.
  - cbn [send received]. destruct (decide (ws = x)) as [->|Hne].
    + rewrite lookup_insert_eq, IH, decide_False by done.
      by rewrite decide_True by left.
    + rewrite lookup_insert_ne by done. rewrite IH.
      destruct (decide (ws ∈ l)) as [Hin|Hin].
      * by rewrite decide_True by (by right).
      * rewrite decide_False; [done|]. by apply not_elem_of_cons.
Qed.

Lemma sound_same_registry (h h' : Hub) :
  next h' = next h → clients h' = clients h → userId h' = userId h →
  userConnections h' = userConnections h →
  registry_sound h → registry_sound h'.
Proof. unfold registry_sound. by intros -> -> -> ->. Qed.

Lemma sound_send (f : frame) (ws : nat) (h : Hub) :
  registry_sound h → registry_sound (send f ws h).
Proof. by apply sound_same_registry. Qed.

Lemma sound_onConnection (h : Hub) : registry_sound h → registry_sound (onConnection h).
Proof.
  intros (H1 & H2 & H3 & H4). apply sound_send.
  split; [done|]. split; [|split]; simpl.
  - intros ws uid [->%elem_of_singleton|Hin]%elem_of_union Hu; [|by apply H2].
    assert (next h < next h)%nat by (apply H4; by eexists). lia.
  - intros ws [->%elem_of_singleton|Hin]%elem_of_union; [lia|].
    specialize (H3 ws Hin). lia.
  - intros ws Hs. specialize (H4 ws Hs). lia.
Qed.

Lemma sound_onMessage (ws : nat) (type : string) (uid : option string) (h : Hub) :
  registry_sound h → registry_sound (onMessage ws type uid h).
Proof.
  intros (H1 & H2 & H3 & H4). unfold onMessage.
  destruct (decide (ws ∈ clients h)) as [Hws|]; [|done].
  destruct (bool_decide (type = "auth")); [|done].
  destruct uid as [uid|]; [|done].
  apply sound_send. split; [|split; [|split]]; simpl.
  - intros u conns. destruct (decide (u = uid)) as [->|Hne].
    + rewrite lookup_insert_eq. intros [= <-]. set_solver.
    + rewrite lookup_insert_ne by done. apply H1.
  - intros ws' u Hopen. destruct (decide (ws' = ws)) as [->|Hne].
    + rewrite lookup_insert_eq. intros [= <-]. rewrite lookup_insert_eq.
      eexists. split; [done|]. set_solver.
    + rewrite lookup_insert_ne by done. intros Hu.
      destruct (H2 ws' u Hopen Hu) as (conns & Hc & Hin).
      destruct (decide (u = uid)) as [->|Hne'].
      * rewrite lookup_insert_eq. eexists. split; [done|]. rewrite Hc. simpl.
        set_solver.
      * rewrite lookup_insert_ne by done. by exists conns.
  - done.
  - intros ws'. destruct (decide (ws' = ws)) as [->|Hne]; [intros _; by apply H3|].
    rewrite lookup_insert_ne by done. apply H4.
Qed.

Lemma sound_onClose (ws : nat) (h : Hub) :
  registry_sound h → registry_sound (onClose ws h).
Proof.
  intros (H1 & H2 & H3 & H4). unfold onClose.
  destruct (decide (ws ∈ clients h)) as [Hws|]; [|done].
  split; [|split; [|split]]; simpl.
  - intros u conns.
    destruct (userId h !! ws) as [uid|]; [|apply H1].
    destruct (bool_decide (uid = "")); [apply H1|].
    destruct (userConnections h !! uid) as [c0|] eqn:Hc0; [|apply H1].
    destruct (decide (size (c0 ∖ {[ws]}) = 0%nat)) as [Hz|Hz].
    + destruct (decide (u = uid)) as [->|Hne]; [by rewrite lookup_delete_eq|].
      rewrite lookup_delete_ne by done. apply H1.
    + destruct (decide (u = uid)) as [->|Hne].
      * rewrite lookup_insert_eq. intros [= <-].
        intros Hempty. apply Hz. rewrite Hempty. apply size_empty.
      * rewrite lookup_insert_ne by done. apply H1.
  - intros ws' u [Hopen Hne%not_elem_of_singleton]%elem_of_difference Hu.
    destruct (H2 ws' u Hopen Hu) as (conns & Hc & Hin).
    destruct (userId h !! ws) as [uid|]; [|by exists conns].
    destruct (bool_decide (uid = "")); [by exists conns|].
    destruct (userConnections h !! uid) as [c0|] eqn:Hc0; [|by exists conns].
    destruct (decide (u = uid)) as [->|Hne'].
    + rewrite Hc in Hc0. injection Hc0 as <-.
      assert (Hin' : ws' ∈ conns ∖ {[ws]}) by set_solver.
      destruct (decide (size (conns ∖ {[ws]}) = 0%nat)) as [Hz|Hz].
      * apply size_empty_iff in Hz. apply Hz in Hin'. by apply elem_of_empty in Hin'.
      * rewrite lookup_insert_eq. by eexists.
    + destruct (decide (size (c0 ∖ {[ws]}) = 0%nat)).
      * rewrite lookup_delete_ne by done. by exists conns.
      * rewrite lookup_insert_ne by done. by exists conns.
  - intros ws' [Hopen _]%elem_of_difference. by apply H3.
  - done.
Qed.

Lemma sound_step (h : Hub) (e : event) : registry_sound h → registry_sound (step h e).
Proof.
  intros Hs. destruct e as [|ws type uid|ws|uid m|m]; simpl.
  - by apply sound_onConnection.
  - by apply sound_onMessage.
  - by apply sound_onClose.
  - unfold sendToUser. destruct (userConnections h !! uid) as [c|]; [|done].
    destruct (decide (size c = 0%nat)); [done|]. simpl.
    destruct (foldr_send_fields (Notification m)
                (filter (λ ws, ws ∈ clients h) (elements c)) h) as (? & ? & ? & ?).
    by eapply sound_same_registry.
  - unfold broadcast. simpl.
    destruct (foldr_send_fields (Notification m) (elements (clients h)) h)
      as (? & ? & ? & ?).
    by eapply sound_same_registry.
Qed.

Lemma sound_reachable (events : list event) :
  registry_sound (foldl step Notifier.empty events).
Proof.
  assert (H0 : registry_sound Notifier.empty).
  { split; [|split; [|split]]; simpl.
    - intros ? ?. by rewrite lookup_empty.
    - intros ? ? ?%elem_of_empty. done.
    - intros ? ?%elem_of_empty. done.
    - intros ? [? H]. by rewrite lookup_empty in H. }
  revert H0. generalize Notifier.empty.
  induction events as [|e events IH]; intros h Hs; simpl; [done|].
  apply IH. by apply sound_step.
Qed.

(** X24.  Whatever sequence of connections, messages, closes and sends
    the service goes through from its start, its registry stays sound:
    no user id is mapped to an empty set (a user whose last socket closes
    is dropped), and every open socket is in the set of the user id it
    last authenticated as. *)
Theorem registry_stays_sound (events : list event) :
  registry_sound (foldl step Notifier.empty events).
Proof. apply sound_reachable. Qed.

(** X25.  With a sound registry, [sendToUser] reaches every open socket
    that last authenticated as the user: it returns true and that socket
    is sent the notification, once.  Nothing is ever sent on a socket
    that is not open, by [sendToUser] or by [broadcast], and [broadcast]
    reports the number of open sockets. *)
Theorem notification_reaches_open_sockets (h : Hub) (ws : nat) (uid : string)
    (message : json) :
  registry_sound h →
  ws ∈ clients h →
  userId h !! ws = Some uid →
  (sendToUser uid message h).1 = true
  ∧ received (sendToUser uid message h).2 !! ws
    = Some (default [] (received h !! ws) ++ [Notification message])
  ∧ (∀ uid' ws', ws' ∉ clients h →
       received (sendToUser uid' message h).2 !! ws' = received h !! ws')
  ∧ (∀ ws', ws' ∉ clients h →
       received (broadcast message h).2 !! ws' = received h !! ws')
  ∧ (broadcast message h).1 = size (clients h).
Proof.
  intros (H1 & H2 & _) Hopen Hu.
  destruct (H2 ws uid Hopen Hu) as (conns & Hc & Hin).
  assert (Hnd : ∀ c : gset nat, NoDup (filter (λ ws, ws ∈ clients h) (elements c))).
  { intros c. apply NoDup_filter, NoDup_elements. }
  split; [|split; [|split; [|split]]].
  - unfold sendToUser. rewrite Hc.
    destruct (decide (size conns = 0%nat)) as [Hz|Hz].
    { apply size_empty_iff in Hz. set_solver. }
    simpl. apply bool_decide_eq_true.
    assert (Hws : ws ∈ filter (λ ws, ws ∈ clients h) (elements conns)).
    { apply list_elem_of_filter. split; [done|]. by apply elem_of_elements. }
    destruct (filter _ (elements conns)); [by apply elem_of_nil in Hws | simpl; lia].
  - unfold sendToUser. rewrite Hc.
    destruct (decide (size conns = 0%nat)) as [Hz|Hz].
    { apply size_empty_iff in Hz. set_solver. }
    simpl. rewrite foldr_send_received by apply Hnd.
    rewrite decide_True; [done|].
    apply list_elem_of_filter. split; [done|]. by apply elem_of_elements.
  - intros uid' ws' Hclosed. unfold sendToUser.
    destruct (userConnections h !! uid') as [c|]; [|done].
    destruct (decide (size c = 0%nat)); [done|]. simpl.
    rewrite foldr_send_received by apply Hnd.
    rewrite decide_False; [done|]. by intros [? _]%list_elem_of_filter.
  - intros ws' Hclosed. unfold broadcast. simpl.
    rewrite foldr_send_received by apply NoDup_elements.
    rewrite decide_False; [done|]. by intros ?%elem_of_elements.
  - done.
Qed.

Lemma notification_reaches_open_sockets_witness :
  let h := foldl step Notifier.empty [Connection; Message 0 "auth" (Some "7")] in
  (sendToUser "7" (JObj [("type", JStr "order_created")]) h).1 = true.
Proof.
  intros h.
  apply (notification_reaches_open_sockets h 0 "7").
  - apply sound_reachable.
  - vm_compute. reflexivity.
  - vm_compute. reflexivity.
Defined.

End NotifierRegistry.

Section NotifierExact.

Import Notifier.






(** When a socket does authenticate a second time under another id, its
    first registration outlives it: here socket 0 has closed and user
    "a" is still listed with it. *)
Example reauthentication_leaves_stale_entry :
  let h := foldl step Notifier.empty
             [Connection; Message 0 "auth" (Some "a"); Message 0 "auth" (Some "b");
              Close 0] in
  clients h = ∅ ∧ userConnections h !! "a" = Some {[0%nat]}
  ∧ userConnections h !! "b" = None.
Proof. vm_compute. done. Qed.

(** A socket that authenticates with a [userId] whose text is empty
    ([[]] is one) is registered under the empty id and stays there after
    it has closed; a send to that id finds the set and no open socket. *)
Example empty_id_is_never_removed :
  let h := foldl step Notifier.empty
             [Connection; Message 0 "auth" (Some ""); Close 0] in
  clients h = ∅ ∧ userConnections h !! "" = Some {[0%nat]}
  ∧ (sendToUser "" JNull h).1 = false.
Proof. vm_compute. done. Qed.

End NotifierExact.
